(** * Jeeniverse portal: helix layout, particle emitter and corruption hook

    A shallow embedding of the procedural logic of [src/index.tsx]:

    - the [vaultItems] computation of [VaultDimension] (the double-helix
      layout) and the click handler of a vault item;
    - the per-particle style computation of [TakingOverParticles];
    - the [useCorruption] hook.

    Number model.  The layout and the particle emitter go through
    [Math.sin], [Math.cos] and [Math.random], whose results ECMAScript
    leaves implementation-approximated; their arithmetic is embedded over
    the real numbers ([R]), so [Math.sin]/[Math.cos]/[Math.PI] are the
    real [sin]/[cos]/[PI] and no rounding is modelled there.  What is
    stated over [R] is kept to what rounding preserves: closed ranges,
    order, the floor, and equalities between the same expressions.  The
    [useCorruption] hook and the exit ritual only add, divide and compare
    fixed constants, which IEEE-754 determines completely: they are
    embedded over Rocq's primitive binary64 floats, the very number type
    of JavaScript; so is the duration expression, where exactness is at
    stake. *)

From Stdlib Require Import Reals Lra Lia ZArith String Ascii Bool Arith List.
From Stdlib Require Import Floats.
Import ListNotations.

Set Warnings "-inexact-float".

(* ===================================================================== *)
(** * Part I: the embedding                                               *)
(* ===================================================================== *)

(** ** JavaScript helpers *)

Module Js.

Local Open Scope string_scope.

(** [Array.prototype.map] with the element index passed to the callback. *)
Fixpoint mapi_from {X Y : Type} (f : X -> nat -> Y) (i : nat) (l : list X)
  : list Y :=
  match l with
  | [] => []
  | x :: t => f x i :: mapi_from f (S i) t
  end.

Definition mapi {X Y : Type} (f : X -> nat -> Y) (l : list X) : list Y :=
  mapi_from f 0 l.

(** [s.startsWith(p)]. *)
Definition startsWith (s p : string) : bool := String.prefix p s.

(** The character class [\d] (no unicode flag): the ASCII digits. *)
Definition isDigit (c : ascii) : bool :=
  (48 <=? nat_of_ascii c)%nat && (nat_of_ascii c <=? 57)%nat.

(** Does [/-dup\d?$/] match when the match is made to start at the first
    character of [s]?  The literal [-dup] must be there, then the greedy
    optional digit, then the end of the input. *)
Definition dupSuffixHere (s : string) : bool :=
  match s with
  | String "-" (String "d" (String "u" (String "p" rest))) =>
      match rest with
      | EmptyString => true
      | String c EmptyString => isDigit c
      | _ => false
      end
  | _ => false
  end.

(** [s.replace(/-dup\d?$/, '')]: the regular expression is not global, so
    the leftmost match is replaced; the engine tries the start positions
    from left to right, and a match always runs to the end of [s]. *)
Fixpoint replaceDupSuffix (s : string) : string :=
  if dupSuffixHere s then EmptyString
  else match s with
       | EmptyString => EmptyString
       | String c t => String c (replaceDupSuffix t)
       end.

End Js.

(** ** Data: [RealityItem] and [realities] *)

Inductive ParticleShape := circle | square | diamond | star.

Inductive AtmosphereType := smoke | stars | glitch | light_shafts | void.

Record RealityItem := {
  id : string;
  title : string;
  subtitle : string;
  bgImage : string;
  themeColor : string;
  particleColor : string;
  particleShape : ParticleShape;
  description : string;
  atmosphereType : AtmosphereType
}.

Definition dragon : RealityItem := {|
  id := "dragon";
  title := "Dragon's Den";
  subtitle := "Ancient Era";
  bgImage := "https://lh3.googleusercontent.com/aida-public/AB6AXuDso3MbbToJS5hclxf-6uzpc2MLOvsZBRBnKnnDCO6BVmKcF35rN_9vlw34B6cbAkurqDKrNMEhUEPFL0O8HMvcrybAg57NGHSbGG0RE47G6gnTcFizjZ1ie-WMW-_KrRcL2QksaU3pSWD7kflP1TdvN9yL9jio_e4sYfPQHKdG7xe3rDNQ2kBvip2xATno1SoUoYmRR_qyrQAZw6yZ5axF9X4jLikyWEPtT_zOR4zUMteNCOSpbUxnTQal89O0JcH8TcoDX_94N8Y3";
  themeColor := "#FF4E00";
  particleColor := "#FFD700";
  particleShape := diamond;
  description := "A realm of fire and scales where ancient beasts guard treasures beyond imagination.";
  atmosphereType := smoke
|}.

Definition cosmic : RealityItem := {|
  id := "cosmic";
  title := "Cosmic Voyage";
  subtitle := "Future Echo";
  bgImage := "https://lh3.googleusercontent.com/aida-public/AB6AXuD7yCfvOKUjs1tELcFEmvvOquG-UVzM71K2avNZxWQpc3ZqX39BSiYLz-PCDvTS1-XrFGXyL_ZJzjpC2fqi2f8nrXdojj81JUcNMFr9GBvIVFQIYq7cMQajOntdGASxVO_2qWEc81aGChhU3PsfPwIfYiJo0D1J3mykyuTF5b_2gm5wT6m0tRWNYMSPjgWetEwrHyxKkp0Io_wKe7IV413Ck2pAkNWj3R4ZxYoyxgGGmI39F8JgqYXmlvcwtk7W2JWEYSES95_BYCs6";
  themeColor := "#0070F3";
  particleColor := "#50E3C2";
  particleShape := star;
  description := "Drifting through the stardust of a thousand dead suns, silence is your only companion.";
  atmosphereType := stars
|}.

Definition neon : RealityItem := {|
  id := "neon";
  title := "Cyber City";
  subtitle := "Digital Dream";
  bgImage := "https://lh3.googleusercontent.com/aida-public/AB6AXuA4Id3GFAYel2iaVZrVODrSxHDW2qYlaMPyAS226hWpQWLOHZiNE7kDPswd2FSE7WeXYSeQ3LsbL84PeQ4n-uMiWXqslNRYLmor-yC_Mo5iGS5yckRimbcUIwJCswEs50kEK971X737BrMTlficXDbSIwi99tcBbiZhebtKmo6CbdnFhQ2BU7HJk8jv_cMBCSLF1kgIXpcTJxLwgvwaV4SyeZ2nzEwFJad-cy_kuHJ7lCl92r1qKCVKwtqYaZ-OwrPkF4sp3IpPQkM_";
  themeColor := "#BD00FF";
  particleColor := "#FF00FF";
  particleShape := square;
  description := "Neon lights reflect on wet pavement as the pulse of the city synchronizes with your heartbeat.";
  atmosphereType := glitch
|}.

Definition forest : RealityItem := {|
  id := "forest";
  title := "Spirit Woods";
  subtitle := "Nature's Whisper";
  bgImage := "https://lh3.googleusercontent.com/aida-public/AB6AXuBWzf34Ia_sZeP_wAcehk5OtoRrwRg0w569_BrZMa9Xh4-DvvtCPsNAS-oLpPGZHiM-xgMtoQWatsS49NVqMRqrJ3bKyIfdjmKeH86mCW7dGpbWkgwQMe2RO9VZ1WLhos1d-CoABhbSC45Bkyp6JxUT1NevSllX78WwrWZcrdWh0gLItEZdC4-dAUaLKcAXdumjvvgNW2fdACggf7TAGCG2ZaYOp5fTNyLL1vhpuEZJaAXRsp7GLa_NWRqP9ullccc2QLPxQrNlOGSQ";
  themeColor := "#4ADE80";
  particleColor := "#10B981";
  particleShape := circle;
  description := "Ancient trees guard secrets whispered by the wind, waiting for a soul quiet enough to listen.";
  atmosphereType := light_shafts
|}.

Definition realities : list RealityItem := [dragon; cosmic; neon; forest].

(** Object spreads that override fields: [{ ...r, id: newId }] and
    [{ ...r, id: .., title: .., subtitle: .. }]. *)
Definition withId (r : RealityItem) (newId : string) : RealityItem := {|
  id := newId;
  title := title r;
  subtitle := subtitle r;
  bgImage := bgImage r;
  themeColor := themeColor r;
  particleColor := particleColor r;
  particleShape := particleShape r;
  description := description r;
  atmosphereType := atmosphereType r
|}.

Definition withIdTitleSubtitle (r : RealityItem) (newId newTitle newSubtitle : string)
  : RealityItem := {|
  id := newId;
  title := newTitle;
  subtitle := newSubtitle;
  bgImage := bgImage r;
  themeColor := themeColor r;
  particleColor := particleColor r;
  particleShape := particleShape r;
  description := description r;
  atmosphereType := atmosphereType r
|}.

(** ** The helix layout ([vaultItems] of [VaultDimension]) *)

Module Strand.
Inductive t := A | B.
End Strand.

(** The constants local to the callback of [baseItems.map((item, i) => ...)],
    each as a function of the index [i]. *)
Module Helix.

Local Open Scope R_scope.

Definition strand (i : nat) : Strand.t :=
  if (i mod 2 =? 0)%nat then Strand.A else Strand.B.

Definition verticalSpacing : R := 110.
Definition amplitude : R := 90.
Definition frequency : R := 0.4.

Definition phaseOffset (s : Strand.t) : R :=
  match s with
  | Strand.A => 0
  | Strand.B => PI
  end.

Definition angle (i : nat) : R := (INR i * frequency) + phaseOffset (strand i).

Definition xOffset (i : nat) : R := sin (angle i) * amplitude.

Definition depth (i : nat) : R := cos (angle i).

Definition zScale (i : nat) : R := 0.6 + ((depth i + 1) / 2) * 0.5.

(** [Math.floor] is [Int_part], the integer part towards minus infinity. *)
Definition zIndex (i : nat) : Z := Int_part (zScale i * 100).

Definition opacity (i : nat) : R := 0.4 + ((depth i + 1) / 2) * 0.6.

End Helix.

(** The object returned for one item: the item's own fields (the spread
    [...item], kept here as the field [item]) and the placement. *)
Record VaultItem := {
  item : RealityItem;
  left : R;
  top : R;
  scale : R;
  zIndex : Z;
  opacity : R;
  rotation : R;
  delay : R;
  strand : Strand.t
}.

Definition place (it : RealityItem) (i : nat) : VaultItem := {|
  item := it;
  left := 50 + Helix.xOffset i;
  top := 150 + INR i * Helix.verticalSpacing;
  scale := Helix.zScale i;
  zIndex := Helix.zIndex i;
  opacity := Helix.opacity i;
  rotation := sin (Helix.angle i) * 10;
  delay := INR i * 0.05;
  strand := Helix.strand i
|}%R.

(** The layout itself: [items.map((item, i) => ...)]. *)
Definition layoutHelix (items : list RealityItem) : list VaultItem :=
  Js.mapi place items.

(** [realities[k]] for the three locked entries; the array has four
    elements, the fallback is never taken. *)
Definition realityAt (k : nat) : RealityItem := nth k realities dragon.

Definition baseItems : list RealityItem :=
  realities
  ++ map (fun r => withId r (id r ++ "-dup")%string) realities
  ++ map (fun r => withId r (id r ++ "-dup2")%string) realities
  ++ map (fun r => withId r (id r ++ "-dup3")%string) realities
  ++ [ withIdTitleSubtitle (realityAt 0) "locked-1" "Locked Memory" "Encrypted";
       withIdTitleSubtitle (realityAt 1) "locked-2" "Locked Memory" "Encrypted";
       withIdTitleSubtitle (realityAt 2) "locked-3" "Locked Memory" "Encrypted" ].

Definition vaultItems : list VaultItem := layoutHelix baseItems.

(** ** Clicking a vault item

    The handler's effects, in the order it performs them. *)
Inductive UiEffect :=
| playThud
| playMemoryUnlock
| onSelectReality (arg : string).

Definition isLocked (v : VaultItem) : bool := Js.startsWith (id (item v)) "locked".

Definition onClick (v : VaultItem) : list UiEffect :=
  if isLocked v then [playThud]
  else [playMemoryUnlock; onSelectReality (Js.replaceDupSuffix (id (item v)))].

(** The four base reality ids. *)
Definition baseRealityIds : list string :=
  ["dragon"%string; "cosmic"%string; "neon"%string; "forest"%string].

(** What the handler does only depends on the id of the item. *)
Definition clickOnId (s : string) : list UiEffect :=
  if Js.startsWith s "locked"%string then [playThud]
  else [playMemoryUnlock; onSelectReality (Js.replaceDupSuffix s)].

(** The handler's callback argument, when it calls [onSelectReality]. *)
Definition selected (effects : list UiEffect) : list string :=
  flat_map (fun e => match e with onSelectReality a => [a] | _ => [] end) effects.

(** ** The particle emitter ([TakingOverParticles])

    The component reads two ambient sources while it renders:
    [Math.random()] and [Date.now()].  Both are made explicit: an
    [Ambient] fixes the sequence of values each source returns, and the
    render threads the number of calls made so far. *)

Module Particles.

Local Open Scope R_scope.

Record Ambient := {
  random : nat -> R;   (* the value of the k-th call of Math.random() *)
  now : nat -> R       (* the value of the k-th call of Date.now(), in ms *)
}.

Record Calls := {
  randomCalls : nat;
  nowCalls : nat
}.

Definition Render (T : Type) : Type := Ambient -> Calls -> T * Calls.

Definition ret {T : Type} (x : T) : Render T := fun _ c => (x, c).

Definition bind {T U : Type} (m : Render T) (k : T -> Render U) : Render U :=
  fun amb c => let (x, c') := m amb c in k x amb c'.

Notation "x <- m ;; k" := (bind m (fun x => k))
  (at level 61, m at next level, right associativity).

Definition Math_random : Render R :=
  fun amb c =>
    (random amb (randomCalls c),
     {| randomCalls := S (randomCalls c); nowCalls := nowCalls c |}).

Definition Date_now : Render R :=
  fun amb c =>
    (now amb (nowCalls c),
     {| randomCalls := randomCalls c; nowCalls := S (nowCalls c) |}).

(** [particles.map((_, i) => ...)] for a callback with effects: the
    elements are rendered from left to right. *)
Fixpoint mapiM_from {X Y : Type} (f : X -> nat -> Render Y) (i : nat)
  (l : list X) : Render (list Y) :=
  match l with
  | [] => ret []
  | x :: t =>
      y <- f x i ;;
      ys <- mapiM_from f (S i) t ;;
      ret (y :: ys)
  end.

Definition mapiM {X Y : Type} (f : X -> nat -> Render Y) (l : list X)
  : Render (list Y) := mapiM_from f 0 l.

Inductive Speed := fast | normal | slow.

(** The props; [speed] and [shape] are optional, with the defaults of the
    destructuring pattern. *)
Record Props := {
  corruption : R;
  color : string;
  speed : option Speed;
  shape : option ParticleShape
}.

Definition speedOf (p : Props) : Speed :=
  match speed p with Some s => s | None => normal end.

Definition shapeOf (p : Props) : ParticleShape :=
  match shape p with Some s => s | None => circle end.

Definition particleCount : nat := 40.

(** [Array.from({ length: particleCount })]: forty [undefined]. *)
Definition particles : list unit := repeat tt particleCount.

Definition getDurationMultiplier (sp : Speed) : R :=
  match sp with
  | fast => 0.2
  | slow => 3.0
  | normal => 1.0
  end.

Record ShapeStyle := {
  borderRadius : string;
  transform : option string;
  clipPath : option string
}.

Definition getShapeStyle (s : ParticleShape) : ShapeStyle :=
  match s with
  | square => {| borderRadius := "0"; transform := None; clipPath := None |}
  | diamond =>
      {| borderRadius := "0"; transform := Some "rotate(45deg)"%string;
         clipPath := None |}
  | star =>
      {| borderRadius := "0"; transform := None;
         clipPath := Some "polygon(50% 0%, 61% 35%, 98% 35%, 68% 57%, 79% 91%, 50% 70%, 21% 91%, 32% 57%, 2% 35%, 39% 35%)"%string |}
  | circle => {| borderRadius := "50%"; transform := None; clipPath := None |}
  end.

(** The keys of the spread [...shapeStyle] as they end up in the style
    object: the literal writes its own [transform] after the spread, and
    the later key replaces the one of the shape. *)
Definition spreadThenTransform (s : ShapeStyle) (t : string) : ShapeStyle :=
  {| borderRadius := borderRadius s; transform := Some t; clipPath := clipPath s |}.

(** The [style] object of one particle.  Lengths and times are kept as
    numbers; their units ([px], [vw], [vh], [s]) are in the field names'
    comments.  [shapeStyle] holds the keys [borderRadius], [transform] and
    [clipPath] of the object. *)
Record ParticleStyle := {
  key : nat;
  shapeStyle : ShapeStyle;
  width : R;                 (* px *)
  height : R;                (* px *)
  backgroundColor : string;
  boxShadow : string;
  tx : R;                    (* --tx, vw *)
  ty : R;                    (* --ty, vh *)
  animationDuration : R;     (* s, of float-out *)
  animationDelay : R;        (* s *)
  opacity : R
}.

(** The callback of [particles.map]: its reads of the ambient sources are
    in the order in which the source evaluates them. *)
Definition renderParticle (p : Props) (_ : unit) (i : nat)
  : Render ParticleStyle :=
  let mult := getDurationMultiplier (speedOf p) in
  r1 <- Math_random ;;
  let angle := r1 * PI * 2 in
  r2 <- Math_random ;;
  let distance := 80 + r2 * 50 in
  r3 <- Math_random ;;
  let duration := (2 + r3 * 3) * mult in
  r4 <- Math_random ;;
  let delay := r4 * 2 in
  let shapeStyle := getShapeStyle (shapeOf p) in
  t <- Date_now ;;
  let windX := sin (t / 1000 + INR i) * 20 in
  r5 <- Math_random ;;
  r6 <- Math_random ;;
  ret {| key := i;
         shapeStyle := spreadThenTransform shapeStyle "translate(0, 0)";
         width := 2 + r5 * 4;
         height := 2 + r6 * 4;
         backgroundColor := color p;
         boxShadow := ("0 0 10px " ++ color p)%string;
         tx := cos angle * distance + windX;
         ty := sin angle * distance;
         animationDuration := duration;
         animationDelay := delay;
         opacity := 0 |}.

Definition TakingOverParticles (p : Props) : Render (list ParticleStyle) :=
  mapiM (renderParticle p) particles.

(** One render from a fresh count of calls. *)
Definition start : Calls := {| randomCalls := 0; nowCalls := 0 |}.

Definition render (amb : Ambient) (p : Props) : list ParticleStyle :=
  fst (TakingOverParticles p amb start).

(** *** Vocabulary of the statements about the emitter *)

(** The call counts after the render of [n] particles. *)
Definition after (n : nat) (c : Calls) : Calls :=
  {| randomCalls := randomCalls c + 6 * n; nowCalls := nowCalls c + n |}.

(** The k-th value (k = 0..5) that particle [i] reads from [Math.random()]
    and the value it reads from [Date.now()], in a render from [start]. *)
Definition draw (amb : Ambient) (i k : nat) : R := random amb (k + 6 * i).
Definition clock (amb : Ambient) (i : nat) : R := now amb i.

(** The style of particle [i] in a render from [start]. *)
Definition particle (amb : Ambient) (p : Props) (i : nat) : ParticleStyle :=
  fst (renderParticle p tt i amb (after i start)).

(** Three ambients and a set of props used as concrete inputs. *)
Definition calm : Ambient := {| random := fun _ => 0; now := fun _ => 0 |}.

Definition later : Ambient := {| random := fun _ => 0; now := fun _ => 1000 |}.

(** As [calm] for the draws and the readings of one render, different
    afterwards. *)
Definition calmThenWindy : Ambient :=
  {| random := fun k => if (k <? 240)%nat then 0 else 1 / 2;
     now := fun k => if (k <? 40)%nat then 0 else 1000 |}.

Definition unevenDraws : Ambient :=
  {| random := fun k => match k with
                        | 4%nat => 1 / 4
                        | 5%nat => 3 / 4
                        | _ => 1 / 2
                        end;
     now := fun _ => 0 |}.

Definition plainProps (sp : option Speed) : Props :=
  {| corruption := 0; color := "#FFD700"; speed := sp; shape := None |}.

Definition durationAt (amb : Ambient) (p : Props) (i : nat) : option R :=
  option_map animationDuration (nth_error (render amb p) i).

(** The fields of a particle style other than [tx]. *)
Definition sameButTx (a b : ParticleStyle) : Prop :=
  key a = key b /\
  shapeStyle a = shapeStyle b /\
  width a = width b /\
  height a = height b /\
  backgroundColor a = backgroundColor b /\
  boxShadow a = boxShadow b /\
  ty a = ty b /\
  animationDuration a = animationDuration b /\
  animationDelay a = animationDelay b /\
  opacity a = opacity b.

End Particles.

(** ** The duration expression in binary64

    [(2 + Math.random() * 3) * mult] of [TakingOverParticles], with the
    rounding of the browser's arithmetic, as a function of the draw. *)

Module Duration64.

Local Open Scope float_scope.

Definition getDurationMultiplier (sp : Particles.Speed) : float :=
  match sp with
  | Particles.fast => 0.2
  | Particles.slow => 3.0
  | Particles.normal => 1.0
  end.

Definition duration (draw : float) (sp : Particles.Speed) : float :=
  (2 + draw * 3) * getDurationMultiplier sp.

End Duration64.

(** ** The corruption hook ([useCorruption])

    [corruption] is a JavaScript number that is only ever set to [0], set
    to [1], compared with [1] or increased by [0.005]: the embedding uses
    binary64 floats, so every addition rounds as it does in the browser. *)

Module Corruption.

Local Open Scope float_scope.

(** The updater passed to [setCorruption] by the interval callback. *)
Definition tick (prev : float) : float :=
  if 1 <=? prev then 1 else prev + 0.005.

(** The hook's state: the [isActive] argument of the last render and the
    state variable [corruption]. *)
Record Hook := {
  isActive : bool;
  corruption : float
}.

(** What can happen to a mounted hook: the interval fires (every 50 ms,
    and only while the effect of an active render has an interval
    running), or the component re-renders with a new [isActive]. *)
Inductive Event :=
| Interval
| Rerender (active : bool).

(** The body of the effect, run after mount and whenever [isActive]
    changes. *)
Definition effect (active : bool) (c : float) : float :=
  if negb active then 0 else c.

(** [useState(0)], then the effect of the first render. *)
Definition mount (active : bool) : Hook :=
  {| isActive := active; corruption := effect active 0 |}.

Definition step (h : Hook) (e : Event) : Hook :=
  match e with
  | Interval =>
      if isActive h
      then {| isActive := true; corruption := tick (corruption h) |}
      else h
  | Rerender active =>
      if Bool.eqb active (isActive h) then h
      else {| isActive := active; corruption := effect active (corruption h) |}
  end.

Definition run (h : Hook) (es : list Event) : Hook := fold_left step es h.

(** A state is reachable when some sequence of events leads to it from a
    mount. *)
Definition reachable (h : Hook) : Prop :=
  exists active es, h = run (mount active) es.

(** The claimed range, as JavaScript would test it. *)
Definition inUnitInterval (c : float) : bool := (0 <=? c) && (c <=? 1).

(** *** Vocabulary of the statements about the hook *)

(** Two hundred firings of the interval. *)
Definition twoHundredTicks : list Event := repeat Interval 200.

(** The state variable after [n] firings of the interval from 0. *)
Definition ticks (n : nat) : float := Nat.iter n tick 0.

(** The range the state variable really stays in. *)
Definition withinOvershoot (c : float) : bool :=
  (0 <=? c) && (c <=? 0x1.0000000000003p+0).

End Corruption.

(** The same updater in exact arithmetic, for comparison: what the hook
    would compute if additions did not round. *)
Module CorruptionExact.

Local Open Scope R_scope.

Definition tick (prev : R) : R :=
  if Rle_dec 1 prev then 1 else prev + 0.005.

Definition ticks (n : nat) : R := Nat.iter n tick 0.

End CorruptionExact.

(** ** The vault's scroll container and header ([VaultDimension]) *)

(** The height given to the container of the items:
    [vaultItems.length * 110 + 200] pixels. *)
Definition containerHeight (items : list VaultItem) : R :=
  (INR (length items) * 110 + 200)%R.

(** The side of an item's box: the class [w-40] with [aspect-square],
    10rem, that is 160 pixels at the root font size of 16 pixels. *)
Definition itemBox : R := 160%R.

(** [handleScroll]: the header's opacity for a scroll offset. *)
Definition handleScroll (scrollTop : R) : R := Rmax 0 (1 - scrollTop / 200).

(** ** The callers of the particle emitter ([PortalScreen], [ImmersivePlayer])

    Both pass [speed = id === 'dragon' ? 'fast' : (id === 'cosmic' ? 'slow'
    : 'normal')], the reality's particle colour and its particle shape. *)

Module ParticleCallers.

Import Particles.

Definition speedFor (realityId : string) : Speed :=
  if String.eqb realityId "dragon" then fast
  else if String.eqb realityId "cosmic" then slow
  else normal.

Definition propsFor (reality : RealityItem) (corruptionProp : R) : Props :=
  {| corruption := corruptionProp;
     color := particleColor reality;
     speed := Some (speedFor (id reality));
     shape := Some (particleShape reality) |}.

(** Two renders of the component, one after the other, in one ambient. *)
Definition renderTwice (p : Props) : Render (list ParticleStyle * list ParticleStyle) :=
  bind (TakingOverParticles p) (fun first =>
  bind (TakingOverParticles p) (fun second =>
  ret (first, second))).

(** The ambient as it looks to a render that starts after [r] calls of
    [Math.random()] and [n] calls of [Date.now()] have been made. *)
Definition shifted (r n : nat) (amb : Ambient) : Ambient :=
  {| random := fun k => random amb (r + k); now := fun k => now amb (n + k) |}.

(** The wind term of particle [i]. *)
Definition windX (amb : Ambient) (i : nat) : R :=
  (sin (clock amb i / 1000 + INR i) * 20)%R.

(** The distance drawn for particle [i]. *)
Definition distance (amb : Ambient) (i : nat) : R := (80 + draw amb i 1 * 50)%R.

End ParticleCallers.

(** ** The portal's hover particles ([PortalHoverParticles])

    Besides [Math.random()], the render writes custom properties on
    [document.documentElement.style]; the names [--leak-tx-${i}],
    [--leak-ty-${i}], [--magic-tx-${i}] and [--magic-ty-${i}] are kept as
    a family and the index. *)

Module HoverParticles.

Local Open Scope R_scope.

Inductive CssVar :=
| leak_tx (i : nat)
| leak_ty (i : nat)
| magic_tx (i : nat)
| magic_ty (i : nat).

Definition CssVar_eqb (u v : CssVar) : bool :=
  match u, v with
  | leak_tx i, leak_tx j => (i =? j)%nat
  | leak_ty i, leak_ty j => (i =? j)%nat
  | magic_tx i, magic_tx j => (i =? j)%nat
  | magic_ty i, magic_ty j => (i =? j)%nat
  | _, _ => false
  end.

Definition indexOf (v : CssVar) : nat :=
  match v with
  | leak_tx i | leak_ty i | magic_tx i | magic_ty i => i
  end.

(** The state a render threads: the number of calls of [Math.random()]
    made so far and the custom properties of the root element (pixels). *)
Record Doc := {
  randomCalls : nat;
  rootStyle : CssVar -> option R
}.

Definition Render (T : Type) : Type := (nat -> R) -> Doc -> T * Doc.

Definition ret {T : Type} (x : T) : Render T := fun _ d => (x, d).

Definition bind {T U : Type} (m : Render T) (k : T -> Render U) : Render U :=
  fun rnd d => let (x, d') := m rnd d in k x rnd d'.

Notation "x <- m ;; k" := (bind m (fun x => k))
  (at level 61, m at next level, right associativity).

Definition Math_random : Render R :=
  fun rnd d =>
    (rnd (randomCalls d),
     {| randomCalls := S (randomCalls d); rootStyle := rootStyle d |}).

(** [document.documentElement.style.setProperty(name, `${x}px`)]. *)
Definition setProperty (v : CssVar) (x : R) : Render unit :=
  fun _ d =>
    (tt, {| randomCalls := randomCalls d;
            rootStyle := fun u => if CssVar_eqb u v then Some x else rootStyle d u |}).

Fixpoint mapiM_from {X Y : Type} (f : X -> nat -> Render Y) (i : nat)
  (l : list X) : Render (list Y) :=
  match l with
  | [] => ret []
  | x :: t =>
      y <- f x i ;;
      ys <- mapiM_from f (S i) t ;;
      ret (y :: ys)
  end.

Definition mapiM {X Y : Type} (f : X -> nat -> Render Y) (l : list X)
  : Render (list Y) := mapiM_from f 0 l.

(** The keyframes an [animation] string names, with its timing function. *)
Inductive Animation :=
| spark_rise        (* ease-out *)
| atmosphere_leak   (* linear *)
| magical_flow.     (* ease-out *)

Record HoverStyle := {
  key : nat;
  width : R;                 (* px *)
  height : R;                (* px *)
  backgroundColor : string;
  boxShadowBlur : R;         (* px, of `0 0 ${size * 3}px ${color}` *)
  boxShadowColor : string;
  txRef : CssVar;            (* --tx: var(...) *)
  tyRef : CssVar;            (* --ty: var(...) *)
  animation : Animation;
  animationDuration : R;     (* s *)
  animationDelay : R;        (* s *)
  opacity : R
}.

Definition isDragon (realityId : string) : bool := String.eqb realityId "dragon".
Definition isCosmic (realityId : string) : bool := String.eqb realityId "cosmic".

(** [Array.from({ length: 60 })]. *)
Definition particles : list unit := repeat tt 60.

(** The callback of [particles.map]: the branch on [realityId] first, then
    the style object, whose fields are evaluated in the order written. *)
Definition hoverParticle (realityId color : string) (_ : unit) (i : nat)
  : Render HoverStyle :=
  branch <-
    (if isDragon realityId then
       r1 <- Math_random ;;
       let size := 2 + r1 * 3 in
       r2 <- Math_random ;;
       let tx := (r2 - 0.5) * 40 in
       r3 <- Math_random ;;
       let ty := -60 - r3 * 80 in
       r4 <- Math_random ;;
       _ <- setProperty (leak_tx i) tx ;;
       _ <- setProperty (leak_ty i) ty ;;
       ret (size, spark_rise, 4 + r4 * 3)
     else if isCosmic realityId then
       r1 <- Math_random ;;
       let size := 1 + r1 * 2 in
       r2 <- Math_random ;;
       let tx := (r2 - 0.5) * 150 in
       r3 <- Math_random ;;
       let ty := (r3 - 0.5) * 150 in
       r4 <- Math_random ;;
       _ <- setProperty (leak_tx i) tx ;;
       _ <- setProperty (leak_ty i) ty ;;
       ret (size, atmosphere_leak, 8 + r4 * 4)
     else
       r1 <- Math_random ;;
       let size := 2 + r1 * 4 in
       r2 <- Math_random ;;
       let angle := r2 * PI * 2 in
       r3 <- Math_random ;;
       let dist := 50 + r3 * 100 in
       let tx := cos angle * dist in
       let ty := sin angle * dist in
       _ <- setProperty (magic_tx i) tx ;;
       _ <- setProperty (magic_ty i) ty ;;
       r4 <- Math_random ;;
       ret (size, magical_flow, 2 + r4 * 2)) ;;
  let '(size, anim, duration) := branch in
  bg <-
    (if isDragon realityId then
       r <- Math_random ;;
       ret (if Rlt_dec 0.7 r then "#FFD700"%string else color)
     else ret color) ;;
  delay <- Math_random ;;
  ret {| key := i;
         width := size;
         height := size;
         backgroundColor := bg;
         boxShadowBlur := size * 3;
         boxShadowColor := color;
         txRef := if isDragon realityId || isCosmic realityId
                  then leak_tx i else magic_tx i;
         tyRef := if isDragon realityId || isCosmic realityId
                  then leak_ty i else magic_ty i;
         animation := anim;
         animationDuration := duration;
         animationDelay := delay;
         opacity := 0 |}.

Definition PortalHoverParticles (realityId color : string) (isHovered : bool)
  : Render (list HoverStyle) :=
  mapiM (hoverParticle realityId color) particles.

(** A document on which nothing was rendered yet. *)
Definition blank : Doc := {| randomCalls := 0; rootStyle := fun _ => None |}.

(** What the [var(...)] references of a style resolve to in a document. *)
Definition resolved (d : Doc) (q : HoverStyle) : option R * option R :=
  (rootStyle d (txRef q), rootStyle d (tyRef q)).

End HoverParticles.

(** *** Vocabulary of the statements about the hover particles *)

Module HoverProfile.

Import HoverParticles.
Local Open Scope R_scope.

(** The number of calls of [Math.random()] one particle makes. *)
Definition drawsPer (realityId : string) : nat :=
  if isDragon realityId then 6%nat else 5%nat.

(** Where the end offset [(x, y)] of a particle may lie, per profile:
    sparks rise (negative [y] is up) in a narrow column, the cosmic leak
    fills a square, the default flow stays within 150 of the centre. *)
Definition inProfile (realityId : string) (x y : R) : Prop :=
  if isDragon realityId then -20 <= x <= 20 /\ -140 <= y <= -60
  else if isCosmic realityId then -75 <= x <= 75 /\ -75 <= y <= 75
  else -150 <= x <= 150 /\ -150 <= y <= 150.

(** The ranges of the size (pixels) and of the duration (seconds), as
    closed intervals. *)
Definition sizeRange (realityId : string) : R * R :=
  if isDragon realityId then (2, 5)
  else if isCosmic realityId then (1, 3)
  else (2, 6).

Definition durationRange (realityId : string) : R * R :=
  if isDragon realityId then (4, 7)
  else if isCosmic realityId then (8, 12)
  else (2, 4).

Definition animationOf (realityId : string) : Animation :=
  if isDragon realityId then spark_rise
  else if isCosmic realityId then atmosphere_leak
  else magical_flow.

(** One render on a blank document. *)
Definition render (rnd : nat -> R) (realityId color : string)
  : list HoverStyle * Doc :=
  PortalHoverParticles realityId color true rnd blank.

(** A source of draws used as a concrete input. *)
Definition halves : nat -> R := fun _ => 1 / 2.

End HoverProfile.

(** ** The portal card's tilt ([CinematicCard]) *)

Module CardTilt.

Local Open Scope R_scope.

(** The fields of [getBoundingClientRect()] the handler reads. *)
Record DOMRect := {
  left : R;
  top : R;
  width : R;
  height : R
}.

Record Tilt := { x : R; y : R }.

(** The component's state: [isHovered] and [tilt]. *)
Record Card := {
  isHovered : bool;
  tilt : Tilt
}.

Definition initial : Card := {| isHovered := false; tilt := {| x := 0; y := 0 |} |}.

Definition updateTilt (clientX clientY : R) (card : DOMRect) (_ : Card) : Card :=
  let x := (clientX - left card - width card / 2) / 20 in
  let y := (clientY - top card - height card / 2) / 20 in
  {| isHovered := true; tilt := {| x := x; y := y |} |}.

Definition handleMouseMove (clientX clientY : R) (card : DOMRect) (c : Card) : Card :=
  updateTilt clientX clientY card c.

(** [e.touches] as the list of the touch points' client coordinates. *)
Definition handleTouchMove (touches : list (R * R)) (card : DOMRect) (c : Card) : Card :=
  match touches with
  | (clientX, clientY) :: _ => updateTilt clientX clientY card c
  | [] => c
  end.

Definition handleReset (_ : Card) : Card :=
  {| isHovered := false; tilt := {| x := 0; y := 0 |} |}.

(** The angles and the factor of the [transform]:
    [rotateX(-tilt.y) rotateY(tilt.x) rotate(corruption * 2) scale(..)]. *)
Definition rotateX (c : Card) : R := - y (tilt c).
Definition rotateY (c : Card) : R := x (tilt c).
Definition rotate (corruption : R) : R := corruption * 2.
Definition scale (c : Card) : R := if isHovered c then 1.05 else 1.

(** The pointer is over the card's rectangle. *)
Definition inside (clientX clientY : R) (card : DOMRect) : Prop :=
  left card <= clientX <= left card + width card /\
  top card <= clientY <= top card + height card.

(** A card rectangle used as a concrete input. *)
Definition cardRect : DOMRect :=
  {| left := 20; top := 100; width := 360; height := 450 |}.

End CardTilt.

(** ** The immersive player: stereo position and the exit ritual
    ([ImmersivePlayer]) *)

Module Immersive.

(** [handleInteraction]: the pointer's [clientX] over [window.innerWidth],
    normalised to [-1, 1] and passed to [setSpatialPosition]. *)
Definition handleInteraction (innerWidth clientX : R) : R :=
  (clientX / innerWidth * 2 - 1)%R.

Local Open Scope float_scope.

(** What the ritual does to the outside, in the order it does it. *)
Inductive Effect :=
| modulateEnvironment (intensity : float)
| exitFullscreen
| onExit.

(** The state of the player: the state variable [exitProgress], the ref
    [pressTimer], the intervals the browser has running, the id the next
    [setInterval] returns (ids are positive), whether
    [document.exitFullscreen] exists, and the effects so far (the latest
    last). *)
Record Player := {
  exitProgress : float;
  pressTimer : option nat;
  intervals : list nat;
  nextTimer : nat;
  canExitFullscreen : bool;
  effects : list Effect
}.

Inductive Event :=
| startExit                 (* onMouseDown, onTouchStart *)
| cancelExit                (* onMouseUp, onMouseLeave, onTouchEnd *)
| fire (timer : nat).       (* the interval [timer] is due *)

Definition clearInterval (timer : option nat) (running : list nat) : list nat :=
  match timer with
  | Some t => filter (fun u => negb (u =? t)%nat) running
  | None => running
  end.

(** [if (pressTimer.current)]: [null] and the number 0 are falsy. *)
Definition truthy (timer : option nat) : bool :=
  match timer with
  | Some (S _) => true
  | _ => false
  end.

(** The updater passed to [setExitProgress] by the interval's callback. *)
Definition advance (p : Player) : Player :=
  let prev := exitProgress p in
  let next := prev + 2 in
  let heard := effects p ++ [modulateEnvironment (1 - (next / 100))] in
  if 100 <=? next then
    {| exitProgress := 100;
       pressTimer := pressTimer p;
       intervals := clearInterval (pressTimer p) (intervals p);
       nextTimer := nextTimer p;
       canExitFullscreen := canExitFullscreen p;
       effects := heard
                  ++ (if canExitFullscreen p then [exitFullscreen] else [])
                  ++ [modulateEnvironment 1; onExit] |}
  else
    {| exitProgress := next;
       pressTimer := pressTimer p;
       intervals := intervals p;
       nextTimer := nextTimer p;
       canExitFullscreen := canExitFullscreen p;
       effects := heard |}.

Definition step (p : Player) (e : Event) : Player :=
  match e with
  | startExit =>
      {| exitProgress := exitProgress p;
         pressTimer := Some (nextTimer p);
         intervals := nextTimer p :: intervals p;
         nextTimer := S (nextTimer p);
         canExitFullscreen := canExitFullscreen p;
         effects := effects p |}
  | cancelExit =>
      {| exitProgress := 0;
         pressTimer := pressTimer p;
         intervals := if truthy (pressTimer p)
                      then clearInterval (pressTimer p) (intervals p)
                      else intervals p;
         nextTimer := nextTimer p;
         canExitFullscreen := canExitFullscreen p;
         effects := effects p ++ [modulateEnvironment 1] |}
  | fire t =>
      if existsb (Nat.eqb t) (intervals p) then advance p else p
  end.

Definition run (p : Player) (es : list Event) : Player := fold_left step es p.

(** The player as mounted: nothing pressed, no interval, nothing done. *)
Definition mounted (fullscreen : bool) : Player :=
  {| exitProgress := 0;
     pressTimer := None;
     intervals := [];
     nextTimer := 1;
     canExitFullscreen := fullscreen;
     effects := [] |}.

(** [modulateEnvironment] of the audio hook, when the hum is running: the
    targets it sets for the filter's cutoff (Hz) and for the gain. *)
Definition cutoffFor (intensity : float) : float := 100 + (1900 * intensity).
Definition volumeFor (intensity : float) : float := 0.005 + (0.045 * intensity).

(** *** Vocabulary of the statements about the ritual *)

(** The progress after [n] firings of the interval. *)
Definition progressOf (n : nat) : float :=
  Nat.iter n (fun prev => let next := prev + 2 in
                          if 100 <=? next then 100 else next) 0.

(** One press from the mounted state, held for [n] firings. *)
Definition held (fullscreen : bool) (n : nat) : Player :=
  run (mounted fullscreen) (startExit :: repeat (fire 1) n).

Definition isOnExit (e : Effect) : bool :=
  match e with onExit => true | _ => false end.

Definition isExitFullscreen (e : Effect) : bool :=
  match e with exitFullscreen => true | _ => false end.

(** Whether [document.exitFullscreen()] was called. *)
Definition leftFullscreen (p : Player) : bool :=
  existsb isExitFullscreen (effects p).

(** How often [onExit] was called. *)
Definition exits (p : Player) : nat := length (filter isOnExit (effects p)).

(** An intensity the audio hook is documented for (0 is muffled, 1 is
    normal), with targets between the muffled and the normal cutoff and
    volume. *)
Definition audible (e : Effect) : bool :=
  match e with
  | modulateEnvironment i =>
      (0 <=? i) && (i <=? 1)
      && (100 <=? cutoffFor i) && (cutoffFor i <=? 2000)
      && (0.005 <=? volumeFor i) && (volumeFor i <=? 0.05)
  | _ => true
  end.

End Immersive.

(** ** The portal screen ([PortalScreen]) and the mode buttons
    ([OrbitalHud])

    The state variables of [PortalScreen], the callbacks it has pending in
    [setTimeout], and the sounds and vibrations it has asked for.  A
    pending callback is kept as data; the browser runs them one at a
    time. *)

(** The calls made on the audio and haptics hook ([useNervousSystem]). *)
Module Nervous.

Inductive Haptic := light | heavy.

Inductive Call :=
| playClick
| playThud
| playWhoosh
| playMemoryUnlock
| triggerHaptic (type : Haptic).

(** [triggerHaptic]: the argument of [navigator.vibrate], when the
    browser has it. *)
Definition vibration (canVibrate : bool) (type : Haptic) : option nat :=
  if negb canVibrate then None
  else match type with
       | light => Some 5%nat
       | heavy => Some 20%nat
       end.

End Nervous.

Module Portal.

Inductive WarpPhase := idle | accelerating | warped.

Inductive Timeout :=
| switchDone (index : nat)        (* 500 ms, of handleSwitchMode *)
| captureDone                     (* 2000 ms, of handleCapture *)
| warpDone                        (* 1000 ms, of handleWarp *)
| deepLinkDone (id : string).     (* 1500 ms, of the hash effect *)

Record Screen := {
  activeDimension : nat;
  selectedRealityId : string;
  isTransitioning : bool;
  warpPhase : WarpPhase;
  introComplete : bool;
  isProcessingFile : bool;
  isScanning : bool;
  timeouts : list Timeout;
  heard : list Nervous.Call
}.

(** The [useState] initial values. *)
Definition initial : Screen :=
  {| activeDimension := 0;
     selectedRealityId := "dragon";
     isTransitioning := false;
     warpPhase := idle;
     introComplete := false;
     isProcessingFile := false;
     isScanning := false;
     timeouts := [];
     heard := [] |}.

Definition hear (sounds : list Nervous.Call) (s : Screen) : Screen :=
  {| activeDimension := activeDimension s;
     selectedRealityId := selectedRealityId s;
     isTransitioning := isTransitioning s;
     warpPhase := warpPhase s;
     introComplete := introComplete s;
     isProcessingFile := isProcessingFile s;
     isScanning := isScanning s;
     timeouts := timeouts s;
     heard := heard s ++ sounds |}.

Definition setTimeout (t : Timeout) (s : Screen) : Screen :=
  {| activeDimension := activeDimension s;
     selectedRealityId := selectedRealityId s;
     isTransitioning := isTransitioning s;
     warpPhase := warpPhase s;
     introComplete := introComplete s;
     isProcessingFile := isProcessingFile s;
     isScanning := isScanning s;
     timeouts := timeouts s ++ [t];
     heard := heard s |}.

Definition setActiveDimension (i : nat) (s : Screen) : Screen :=
  {| activeDimension := i;
     selectedRealityId := selectedRealityId s;
     isTransitioning := isTransitioning s;
     warpPhase := warpPhase s;
     introComplete := introComplete s;
     isProcessingFile := isProcessingFile s;
     isScanning := isScanning s;
     timeouts := timeouts s;
     heard := heard s |}.

Definition setSelectedRealityId (r : string) (s : Screen) : Screen :=
  {| activeDimension := activeDimension s;
     selectedRealityId := r;
     isTransitioning := isTransitioning s;
     warpPhase := warpPhase s;
     introComplete := introComplete s;
     isProcessingFile := isProcessingFile s;
     isScanning := isScanning s;
     timeouts := timeouts s;
     heard := heard s |}.

Definition setIsTransitioning (b : bool) (s : Screen) : Screen :=
  {| activeDimension := activeDimension s;
     selectedRealityId := selectedRealityId s;
     isTransitioning := b;
     warpPhase := warpPhase s;
     introComplete := introComplete s;
     isProcessingFile := isProcessingFile s;
     isScanning := isScanning s;
     timeouts := timeouts s;
     heard := heard s |}.

Definition setWarpPhase (w : WarpPhase) (s : Screen) : Screen :=
  {| activeDimension := activeDimension s;
     selectedRealityId := selectedRealityId s;
     isTransitioning := isTransitioning s;
     warpPhase := w;
     introComplete := introComplete s;
     isProcessingFile := isProcessingFile s;
     isScanning := isScanning s;
     timeouts := timeouts s;
     heard := heard s |}.

Definition setIntroComplete (b : bool) (s : Screen) : Screen :=
  {| activeDimension := activeDimension s;
     selectedRealityId := selectedRealityId s;
     isTransitioning := isTransitioning s;
     warpPhase := warpPhase s;
     introComplete := b;
     isProcessingFile := isProcessingFile s;
     isScanning := isScanning s;
     timeouts := timeouts s;
     heard := heard s |}.

Definition setIsProcessingFile (b : bool) (s : Screen) : Screen :=
  {| activeDimension := activeDimension s;
     selectedRealityId := selectedRealityId s;
     isTransitioning := isTransitioning s;
     warpPhase := warpPhase s;
     introComplete := introComplete s;
     isProcessingFile := b;
     isScanning := isScanning s;
     timeouts := timeouts s;
     heard := heard s |}.

Definition setIsScanning (b : bool) (s : Screen) : Screen :=
  {| activeDimension := activeDimension s;
     selectedRealityId := selectedRealityId s;
     isTransitioning := isTransitioning s;
     warpPhase := warpPhase s;
     introComplete := introComplete s;
     isProcessingFile := isProcessingFile s;
     isScanning := b;
     timeouts := timeouts s;
     heard := heard s |}.

(** [realities.find(r => r.id === id)]. *)
Definition findReality (rid : string) : option RealityItem :=
  find (fun r => String.eqb (id r) rid) realities.

(** [realities.find(r => r.id === selectedRealityId) || realities[0]]. *)
Definition currentReality (s : Screen) : RealityItem :=
  match findReality (selectedRealityId s) with
  | Some r => r
  | None => realityAt 0
  end.

(** The argument [PortalScreen] passes to [useCorruption]. *)
Definition corruptionActive (s : Screen) : bool :=
  negb (isTransitioning s)
  && (match warpPhase s with idle => true | _ => false end)
  && (activeDimension s =? 0)%nat.

Definition handleSwitchMode (index : nat) (s : Screen) : Screen :=
  if (index =? activeDimension s)%nat then s
  else setTimeout (switchDone index)
         (hear [Nervous.playWhoosh] (setIsTransitioning true s)).

Definition handleCapture (s : Screen) : Screen :=
  if isScanning s then s
  else setTimeout captureDone
         (hear [Nervous.playThud; Nervous.triggerHaptic Nervous.heavy] (setIsScanning true s)).

Definition handleWarp (s : Screen) : Screen :=
  match warpPhase s with
  | idle =>
      setTimeout warpDone
        (setWarpPhase accelerating (hear [Nervous.playClick; Nervous.triggerHaptic Nervous.heavy] s))
  | _ => s
  end.

Definition handleSelectReality (rid : string) (s : Screen) : Screen :=
  handleSwitchMode 0 (setSelectedRealityId rid s).

(** What [OrbitalHud]'s [handleClick] does beyond the HUD: the click and
    the vibration, then [onCapture()] or [onSwitchMode(index)], with
    [currentMode = activeDimension].  The HUD's own state variable
    [clickedIndex] and its 300 ms reset are in [Hud.handleClick] below. *)
Definition hudClick (index : nat) (s : Screen) : Screen :=
  let s1 := hear [Nervous.playClick; Nervous.triggerHaptic Nervous.heavy] s in
  if (activeDimension s =? 1)%nat && (index =? 1)%nat
  then handleCapture s1
  else handleSwitchMode index s1.

(** [CinematicCard]'s [onClick]: [onWarp(); playThud(); triggerHaptic('heavy')]. *)
Definition cardClick (s : Screen) : Screen :=
  hear [Nervous.playThud; Nervous.triggerHaptic Nervous.heavy] (handleWarp s).

(** A click on a vault item: the effects of [onClick], performed on the
    screen. *)
Definition perform (e : UiEffect) (s : Screen) : Screen :=
  match e with
  | playThud => hear [Nervous.playThud] s
  | playMemoryUnlock => hear [Nervous.playMemoryUnlock] s
  | onSelectReality rid => handleSelectReality rid s
  end.

Definition vaultClick (v : VaultItem) (s : Screen) : Screen :=
  fold_left (fun st e => perform e st) (onClick v) s.

(** The body of a pending callback. *)
Definition callback (t : Timeout) (s : Screen) : Screen :=
  match t with
  | switchDone index => setIsTransitioning false (setActiveDimension index s)
  | captureDone => hear [Nervous.playClick] (setIsScanning false s)
  | warpDone => setWarpPhase warped s
  | deepLinkDone rid =>
      setIsProcessingFile false
        (setWarpPhase warped
           (setIntroComplete true (setSelectedRealityId rid s)))
  end.

Definition dropTimeout (k : nat) (s : Screen) : Screen :=
  {| activeDimension := activeDimension s;
     selectedRealityId := selectedRealityId s;
     isTransitioning := isTransitioning s;
     warpPhase := warpPhase s;
     introComplete := introComplete s;
     isProcessingFile := isProcessingFile s;
     isScanning := isScanning s;
     timeouts := firstn k (timeouts s) ++ skipn (S k) (timeouts s);
     heard := heard s |}.

(** The [k]-th pending callback comes due and runs. *)
Definition fire (k : nat) (s : Screen) : Screen :=
  match nth_error (timeouts s) k with
  | Some t => callback t (dropTimeout k s)
  | None => s
  end.

(** The effect on [window.location.hash]: [hashHasOpen] is
    [hash.includes('open')], [idParam] what [params.get('id')] returns. *)
Definition deepLink (hashHasOpen : bool) (idParam : option string) (s : Screen)
  : Screen :=
  if hashHasOpen then
    match idParam with
    | Some rid =>
        if String.eqb rid EmptyString then s
        else match findReality rid with
             | Some matchedReality =>
                 setTimeout (deepLinkDone (id matchedReality))
                   (hear [Nervous.playThud] (setIsProcessingFile true s))
             | None => s
             end
    | None => s
    end
  else s.

Inductive Event :=
| onHudClick (index : nat)
| onCardClick
| onVaultClick (v : VaultItem)
| onTimeout (k : nat)
| onPlayerExit                      (* ImmersivePlayer's onExit *)
| onIntroComplete                   (* CinematicIntro's onComplete *)
| onHashEffect (hashHasOpen : bool) (idParam : option string).

Definition step (s : Screen) (e : Event) : Screen :=
  match e with
  | onHudClick index => hudClick index s
  | onCardClick => cardClick s
  | onVaultClick v => vaultClick v s
  | onTimeout k => fire k s
  | onPlayerExit => setWarpPhase idle s
  | onIntroComplete => setIntroComplete true s
  | onHashEffect h p => deepLink h p s
  end.

Definition run (s : Screen) (es : list Event) : Screen := fold_left step es s.

(** [systemModes]: the three buttons of the HUD, by [index]. *)
Definition systemModeIndices : list nat := [0; 1; 2]%nat.

(** *** Vocabulary of the statements about the screen *)

(** The events the rendered tree can produce: a HUD button is one of the
    three modes, a vault item one of [vaultItems]. *)
Definition possible (e : Event) : Prop :=
  match e with
  | onHudClick index => In index systemModeIndices
  | onVaultClick v => In v vaultItems
  | _ => True
  end.

Definition isCaptureDone (t : Timeout) : bool :=
  match t with captureDone => true | _ => false end.

(** The number of capture callbacks pending. *)
Definition capturesPending (s : Screen) : nat :=
  length (filter isCaptureDone (timeouts s)).

(** All pending callbacks come due, the oldest first. *)
Definition drain (s : Screen) : Screen :=
  Nat.iter (length (timeouts s)) (fire 0) s.

(** The state variables a render shows, without the log of sounds. *)
Definition shown (s : Screen) :=
  (activeDimension s, selectedRealityId s, isTransitioning s, warpPhase s,
   introComplete s, isProcessingFile s, isScanning s, timeouts s).

(** A pending callback that keeps the state valid when it runs. *)
Definition sound (t : Timeout) : Prop :=
  match t with
  | switchDone index => In index systemModeIndices
  | deepLinkDone rid => In rid baseRealityIds
  | _ => True
  end.

Definition valid (s : Screen) : Prop :=
  In (selectedRealityId s) baseRealityIds /\
  In (activeDimension s) systemModeIndices /\
  Forall sound (timeouts s).

(** The capture callbacks pending match the scanning flag. *)
Definition captureBalanced (s : Screen) : Prop :=
  capturesPending s = if isScanning s then 1%nat else 0%nat.

End Portal.

(** ** The mode buttons ([OrbitalHud])

    The HUD has a state variable of its own, [clickedIndex], which marks
    the button that was just pressed, and a 300 ms timeout that clears
    it. *)

Module Hud.

Record State := {
  clickedIndex : option nat;
  resetsPending : nat;           (* pending [setClickedIndex(null)] callbacks *)
  screen : Portal.Screen
}.

Definition mounted : State :=
  {| clickedIndex := None; resetsPending := 0; screen := Portal.initial |}.

(** [handleClick]: [setClickedIndex(index)], the click and the vibration,
    [setTimeout(() => setClickedIndex(null), 300)], then [onCapture()] or
    [onSwitchMode(index)]. *)
Definition handleClick (index : nat) (h : State) : State :=
  {| clickedIndex := Some index;
     resetsPending := S (resetsPending h);
     screen := Portal.hudClick index (screen h) |}.

(** The callback of the 300 ms timeout. *)
Definition resetDue (h : State) : State :=
  match resetsPending h with
  | O => h
  | S pending =>
      {| clickedIndex := None; resetsPending := pending; screen := screen h |}
  end.

(** The HUD around a given screen, with no button marked. *)
Definition around (s : Portal.Screen) : State :=
  {| clickedIndex := None; resetsPending := 0; screen := s |}.

End Hud.

(** ** The background hum ([toggleVoidHum], [modulateEnvironment],
    [setSpatialPosition] of [useNervousSystem])

    The refs of the hook, the audio nodes created so far (a node is
    named by its number of creation), the oscillators that were started
    and not stopped, and the number of pending stop callbacks. *)

Module VoidHum.

Record Refs := {
  audioContext : bool;             (* audioContextRef.current is set *)
  humOscillator : option nat;
  humGain : option nat;
  humFilter : option nat;
  humPanner : option nat;
  created : nat;
  sounding : list nat;
  stopsPending : nat
}.

Definition fresh : Refs :=
  {| audioContext := false;
     humOscillator := None;
     humGain := None;
     humFilter := None;
     humPanner := None;
     created := 0;
     sounding := [];
     stopsPending := 0 |}.

(** [initAudio]: the context is created on first use. *)
Definition initAudio (r : Refs) : Refs :=
  {| audioContext := true;
     humOscillator := humOscillator r;
     humGain := humGain r;
     humFilter := humFilter r;
     humPanner := humPanner r;
     created := created r;
     sounding := sounding r;
     stopsPending := stopsPending r |}.

Definition isSome {T : Type} (o : option T) : bool :=
  match o with Some _ => true | None => false end.

Definition toggleVoidHum (playing : bool) (r0 : Refs) : Refs :=
  let r := initAudio r0 in
  if playing && negb (isSome (humOscillator r)) then
    (* createOscillator, createGain, createBiquadFilter, createStereoPanner *)
    let osc := created r in
    let gain := S (created r) in
    let filter := S (S (created r)) in
    let panner := S (S (S (created r))) in
    {| audioContext := true;
       humOscillator := Some osc;
       humGain := Some gain;
       humFilter := Some filter;
       humPanner := Some panner;
       created := S (S (S (S (created r))));
       sounding := osc :: sounding r;            (* osc.start() *)
       stopsPending := stopsPending r |}
  else if negb playing && isSome (humOscillator r) then
    (* the gain fades out; the stop is set for one second later *)
    {| audioContext := true;
       humOscillator := humOscillator r;
       humGain := humGain r;
       humFilter := humFilter r;
       humPanner := humPanner r;
       created := created r;
       sounding := sounding r;
       stopsPending := S (stopsPending r) |}
  else r.

(** The callback of the one-second timeout:
    [humOscillatorRef.current?.stop()], then the four refs are cleared. *)
Definition stopDue (r : Refs) : Refs :=
  match stopsPending r with
  | O => r
  | S pending =>
      {| audioContext := audioContext r;
         humOscillator := None;
         humGain := None;
         humFilter := None;
         humPanner := None;
         created := created r;
         sounding := match humOscillator r with
                     | Some osc => filter (fun n => negb (n =? osc)%nat) (sounding r)
                     | None => sounding r
                     end;
         stopsPending := pending |}
  end.

(** Whether [modulateEnvironment] sets its targets:
    [if (ctx && filter && gain)]. *)
Definition modulates (r : Refs) : bool :=
  audioContext r && isSome (humFilter r) && isSome (humGain r).

(** Whether [setSpatialPosition] sets the pan: [if (ctx && panner)]. *)
Definition pans (r : Refs) : bool :=
  audioContext r && isSome (humPanner r).

Inductive Event :=
| toggle (playing : bool)
| stopTimeout.

Definition step (r : Refs) (e : Event) : Refs :=
  match e with
  | toggle playing => toggleVoidHum playing r
  | stopTimeout => stopDue r
  end.

Definition run (r : Refs) (es : list Event) : Refs := fold_left step es r.

(** *** Vocabulary of the statements about the hum *)

(** The refs and the oscillators agree: the oscillator that sounds, if
    any, is the one in the ref, and the four refs are set together. *)
Definition coherent (r : Refs) : Prop :=
  sounding r = match humOscillator r with Some osc => [osc] | None => [] end /\
  isSome (humGain r) = isSome (humOscillator r) /\
  isSome (humFilter r) = isSome (humOscillator r) /\
  isSome (humPanner r) = isSome (humOscillator r) /\
  (isSome (humOscillator r) = true -> audioContext r = true) /\
  (forall osc, humOscillator r = Some osc -> osc < created r).

End VoidHum.

(* ===================================================================== *)
(** * Part II: properties                                                 *)
(* ===================================================================== *)

(** ** Indexed map *)

Section MapiFacts.

Context {X Y : Type} (f : X -> nat -> Y).

Lemma mapi_from_length (l : list X) :
  forall s, length (Js.mapi_from f s l) = length l.
Proof.
  induction l as [|x t IH]; intros s; simpl.
  - reflexivity.
  - now rewrite IH.
Qed.

Lemma mapi_from_nth_error (l : list X) :
  forall s k,
    nth_error (Js.mapi_from f s l) k
    = option_map (fun x => f x (s + k)%nat) (nth_error l k).
Proof.
  induction l as [|x t IH]; intros s k.
  - destruct k; reflexivity.
  - destruct k as [|k]; simpl.
    + now rewrite Nat.add_0_r.
    + rewrite IH. now rewrite Nat.add_succ_r.
Qed.

Lemma mapi_from_map (g : Y -> X) (l : list X) :
  (forall x i, g (f x i) = x) ->
  forall s, map g (Js.mapi_from f s l) = l.
Proof.
  intros Hg. induction l as [|x t IH]; intros s; simpl.
  - reflexivity.
  - now rewrite Hg, IH.
Qed.

Lemma mapi_from_Forall (P : Y -> Prop) (l : list X) :
  (forall x i, P (f x i)) ->
  forall s, Forall P (Js.mapi_from f s l).
Proof.
  intros HP. induction l as [|x t IH]; intros s; simpl; constructor; auto.
Qed.

Lemma mapi_from_fields {W : Type} (g : Y -> W) (h : nat -> W) (l : list X) :
  (forall x i, g (f x i) = h i) ->
  forall s, map g (Js.mapi_from f s l) = map h (seq s (length l)).
Proof.
  intros Hg. induction l as [|x t IH]; intros s; simpl.
  - reflexivity.
  - now rewrite Hg, IH.
Qed.

End MapiFacts.

(** ** The helix layout *)

Section HelixFacts.

Local Open Scope R_scope.

Lemma item_place (it : RealityItem) (i : nat) : item (place it i) = it.
Proof. reflexivity. Qed.

Lemma layoutHelix_items (items : list RealityItem) :
  map item (layoutHelix items) = items.
Proof. apply mapi_from_map, item_place. Qed.

Lemma layoutHelix_nth_error (items : list RealityItem) (i : nat) :
  nth_error (layoutHelix items) i
  = option_map (fun it => place it i) (nth_error items i).
Proof. unfold layoutHelix, Js.mapi. now rewrite mapi_from_nth_error. Qed.

(** C1: the layout has as many placements as there are items, the i-th
    placement is the one computed for the i-th item at index i (so the
    items come out in their input order), the empty list is laid out as
    the empty list, and [vaultItems] is this layout of the 19 base items. *)
Theorem layoutHelix_same_length_same_order :
  forall items : list RealityItem,
    length (layoutHelix items) = length items /\
    map item (layoutHelix items) = items /\
    (forall i, nth_error (layoutHelix items) i
               = option_map (fun it => place it i) (nth_error items i)) /\
    layoutHelix [] = [] /\
    vaultItems = layoutHelix baseItems /\
    length vaultItems = 19%nat.
Proof.
  intros items.
  split; [apply mapi_from_length|].
  split; [apply layoutHelix_items|].
  split; [intros i; apply layoutHelix_nth_error|].
  split; [reflexivity|].
  split; [reflexivity|].
  unfold vaultItems, layoutHelix, Js.mapi. now rewrite mapi_from_length.
Qed.

Lemma strand_A_iff_even (i : nat) : Helix.strand i = Strand.A <-> Nat.Even i.
Proof.
  unfold Helix.strand. rewrite <- Nat.even_spec.
  rewrite <- Nat.negb_odd, <- Nat.bit0_mod, Nat.bit0_odd.
  destruct (Nat.odd i); simpl; split; congruence.
Qed.

Lemma strand_even (i : nat) :
  Helix.strand i = if Nat.even i then Strand.A else Strand.B.
Proof.
  generalize (strand_A_iff_even i). rewrite <- Nat.even_spec.
  destruct (Nat.even i), (Helix.strand i); intuition congruence.
Qed.

(** The layout at indices 2 and 3. *)
Example helix_at_2_and_3 :
  Helix.strand 2 = Strand.A /\ Helix.angle 2 = 0.8 /\
  Helix.strand 3 = Strand.B /\ Helix.angle 3 = 1.2 + PI.
Proof.
  unfold Helix.angle, Helix.frequency. simpl.
  repeat split; lra.
Qed.

(** C2: strand A is exactly the even indices; the phase offset is 0 on
    strand A and PI on strand B, so the angle of item i is
    [i * 0.4 + (if i is even then 0 else PI)]; the placement laid out at
    index i carries that strand, and its horizontal position and tilt are
    the sine of that angle. *)
Theorem strand_parity_and_phase_angle :
  forall i : nat,
    (Helix.strand i = Strand.A <-> Nat.Even i) /\
    Helix.phaseOffset Strand.A = 0 /\
    Helix.phaseOffset Strand.B = PI /\
    Helix.angle i = INR i * Helix.frequency + Helix.phaseOffset (Helix.strand i) /\
    Helix.angle i = INR i * 0.4 + (if Nat.even i then 0 else PI) /\
    (forall items : list RealityItem,
        map strand (layoutHelix items)
        = map Helix.strand (seq 0 (length items))) /\
    (forall it : RealityItem,
        strand (place it i) = Helix.strand i /\
        left (place it i) = 50 + sin (Helix.angle i) * 90 /\
        rotation (place it i) = sin (Helix.angle i) * 10).
Proof.
  intros i.
  split; [apply strand_A_iff_even|].
  split; [reflexivity|].
  split; [reflexivity|].
  split; [reflexivity|].
  split.
  { unfold Helix.angle, Helix.frequency. rewrite strand_even.
    destruct (Nat.even i); reflexivity. }
  split.
  { intros items. unfold layoutHelix, Js.mapi.
    apply mapi_from_fields. reflexivity. }
  intros it. split; [reflexivity|]. split; reflexivity.
Qed.

Lemma zScale_range (i : nat) : 0.6 <= Helix.zScale i <= 1.1.
Proof.
  unfold Helix.zScale, Helix.depth.
  generalize (COS_bound (Helix.angle i)). lra.
Qed.

Lemma opacity_range (i : nat) : 0.4 <= Helix.opacity i <= 1.0.
Proof.
  unfold Helix.opacity, Helix.depth.
  generalize (COS_bound (Helix.angle i)). lra.
Qed.

(** C3: every placement of every layout has its scale in [0.6, 1.1] and
    its opacity in [0.4, 1.0]; so has every index, and so have the 19
    vault items. *)
Theorem scale_and_opacity_ranges :
  (forall i : nat,
      0.6 <= Helix.zScale i <= 1.1 /\ 0.4 <= Helix.opacity i <= 1.0) /\
  (forall items : list RealityItem,
      Forall (fun v => 0.6 <= scale v <= 1.1 /\ 0.4 <= opacity v <= 1.0)
             (layoutHelix items)) /\
  Forall (fun v => 0.6 <= scale v <= 1.1 /\ 0.4 <= opacity v <= 1.0) vaultItems.
Proof.
  assert (H : forall i, 0.6 <= Helix.zScale i <= 1.1 /\ 0.4 <= Helix.opacity i <= 1.0)
    by (intros i; split; [apply zScale_range | apply opacity_range]).
  assert (L : forall items,
             Forall (fun v => 0.6 <= scale v <= 1.1 /\ 0.4 <= opacity v <= 1.0)
                    (layoutHelix items)).
  { intros items. unfold layoutHelix, Js.mapi.
    apply mapi_from_Forall. intros x i. apply H. }
  split; [exact H|]. split; [exact L|]. apply L.
Qed.

(** [Int_part] is the floor: the greatest integer not above its argument. *)
Lemma Int_part_floor (r : R) : IZR (Int_part r) <= r < IZR (Int_part r) + 1.
Proof. generalize (base_Int_part r). lra. Qed.

Lemma Int_part_monotone (r s : R) : r <= s -> (Int_part r <= Int_part s)%Z.
Proof.
  intros Hrs.
  generalize (Int_part_floor r), (Int_part_floor s). intros Hr Hs.
  apply Z.lt_succ_r, lt_IZR. rewrite succ_IZR. lra.
Qed.

Lemma zScale_0 : Helix.zScale 0 = 1.1.
Proof.
  unfold Helix.zScale, Helix.depth, Helix.angle. simpl.
  replace (0 * Helix.frequency + 0) with 0 by ring.
  rewrite cos_0. lra.
Qed.

(** C4: the z-order of a placement is the floor of a hundred times its
    scale, that is the integer z with [z <= scale * 100 < z + 1]; a
    placement with the larger scale therefore never has the smaller
    z-order. *)
Theorem zIndex_is_floor_of_scale :
  forall i j : nat,
    Helix.zIndex i = Int_part (Helix.zScale i * 100) /\
    IZR (Helix.zIndex i) <= Helix.zScale i * 100 < IZR (Helix.zIndex i) + 1 /\
    (forall it : RealityItem,
        zIndex (place it i) = Int_part (scale (place it i) * 100)) /\
    (forall items : list RealityItem,
        Forall (fun v => zIndex v = Int_part (scale v * 100)) (layoutHelix items)) /\
    (Helix.zScale i <= Helix.zScale j -> (Helix.zIndex i <= Helix.zIndex j)%Z).
Proof.
  intros i j.
  split; [reflexivity|].
  split; [apply Int_part_floor|].
  split; [reflexivity|].
  split.
  { intros items. unfold layoutHelix, Js.mapi.
    apply mapi_from_Forall. reflexivity. }
  intros H. unfold Helix.zIndex. apply Int_part_monotone. lra.
Qed.

Lemma zIndex_is_floor_of_scale_witness :
  Helix.zScale 1 <= Helix.zScale 0 /\ (Helix.zIndex 1 <= Helix.zIndex 0)%Z.
Proof.
  assert (H : Helix.zScale 1 <= Helix.zScale 0)
    by (rewrite zScale_0; apply zScale_range).
  split; [exact H|].
  exact (proj2 (proj2 (proj2 (proj2 (zIndex_is_floor_of_scale 1 0)))) H).
Defined.

(** Scale and opacity are increasing affine functions of the depth. *)
Lemma zScale_of_depth (i : nat) : Helix.zScale i = 0.85 + 0.25 * Helix.depth i.
Proof. unfold Helix.zScale. lra. Qed.

Lemma opacity_of_depth (i : nat) : Helix.opacity i = 0.7 + 0.3 * Helix.depth i.
Proof. unfold Helix.opacity. lra. Qed.

Lemma depth_is_cos_angle (i : nat) : Helix.depth i = cos (Helix.angle i).
Proof. reflexivity. Qed.

(** C5: an item that is deeper towards the viewer than another (its
    depth, the cosine of its angle, is greater) has a scale and an opacity
    at least as large; the same holds of the placements laid out at the
    two indices. *)
Theorem scale_and_opacity_monotone_in_depth :
  forall i j : nat,
    Helix.depth i > Helix.depth j ->
    Helix.zScale i >= Helix.zScale j /\
    Helix.opacity i >= Helix.opacity j /\
    (forall a b : RealityItem,
        scale (place a i) >= scale (place b j) /\
        opacity (place a i) >= opacity (place b j)).
Proof.
  intros i j H.
  assert (Hs : Helix.zScale i >= Helix.zScale j)
    by (rewrite !zScale_of_depth; lra).
  assert (Ho : Helix.opacity i >= Helix.opacity j)
    by (rewrite !opacity_of_depth; lra).
  split; [exact Hs|]. split; [exact Ho|].
  intros a b. split; [exact Hs | exact Ho].
Qed.

Lemma depth_0 : Helix.depth 0 = 1.
Proof.
  unfold Helix.depth, Helix.angle. simpl.
  replace (0 * Helix.frequency + 0) with 0 by ring.
  apply cos_0.
Qed.

Lemma depth_1_negative : Helix.depth 1 < 0.
Proof.
  unfold Helix.depth, Helix.angle, Helix.frequency. simpl.
  rewrite neg_cos.
  assert (0 < cos (1 * 0.4)).
  { generalize PI2_1. intros HPI. apply cos_gt_0; lra. }
  lra.
Qed.

Lemma scale_and_opacity_monotone_in_depth_witness :
  Helix.depth 0 > Helix.depth 1 /\
  Helix.zScale 0 >= Helix.zScale 1 /\ Helix.opacity 0 >= Helix.opacity 1.
Proof.
  assert (H : Helix.depth 0 > Helix.depth 1)
    by (rewrite depth_0; generalize depth_1_negative; lra).
  split; [exact H|].
  generalize (scale_and_opacity_monotone_in_depth 0 1 H).
  intros [Hs [Ho _]]. split; [exact Hs | exact Ho].
Defined.

End HelixFacts.

(** ** Clicking a vault item *)

Section ClickFacts.

Local Open Scope string_scope.

Lemma realities_ids : map id realities = baseRealityIds.
Proof. reflexivity. Qed.

Lemma vaultItems_ids :
  map (fun v => id (item v)) vaultItems
  = [ "dragon"; "cosmic"; "neon"; "forest";
      "dragon-dup"; "cosmic-dup"; "neon-dup"; "forest-dup";
      "dragon-dup2"; "cosmic-dup2"; "neon-dup2"; "forest-dup2";
      "dragon-dup3"; "cosmic-dup3"; "neon-dup3"; "forest-dup3";
      "locked-1"; "locked-2"; "locked-3" ].
Proof.
  rewrite <- (map_map item id). unfold vaultItems.
  rewrite layoutHelix_items. reflexivity.
Qed.

Lemma onClick_clickOnId (v : VaultItem) : onClick v = clickOnId (id (item v)).
Proof. reflexivity. Qed.

Lemma selected_In (effects : list UiEffect) (a : string) :
  In (onSelectReality a) effects <-> In a (selected effects).
Proof.
  unfold selected. rewrite in_flat_map. split.
  - intros H. exists (onSelectReality a). split; [exact H | now left].
  - intros [e [He Ha]]. destruct e; simpl in Ha; try contradiction.
    destruct Ha as [->|[]]. exact He.
Qed.

(** The replacement only removes a match that ends the string. *)
Example replaceDupSuffix_samples :
  Js.replaceDupSuffix "neon-dup2" = "neon" /\
  Js.replaceDupSuffix "neon-dup22" = "neon-dup22" /\
  Js.replaceDupSuffix "neon-dup-dup" = "neon-dup" /\
  Js.replaceDupSuffix "neon-dupx" = "neon-dupx" /\
  Js.replaceDupSuffix "locked-1" = "locked-1".
Proof. repeat split; reflexivity. Qed.

(** Stripping the suffix of a duplicated id gives back the base id. *)
Lemma replaceDupSuffix_base_ids :
  forall s, In s baseRealityIds ->
    Js.replaceDupSuffix s = s /\
    Js.replaceDupSuffix (s ++ "-dup") = s /\
    Js.replaceDupSuffix (s ++ "-dup2") = s /\
    Js.replaceDupSuffix (s ++ "-dup3") = s.
Proof.
  intros s H. simpl in H.
  repeat (destruct H as [<-|H]; [repeat split; reflexivity|]).
  contradiction.
Qed.

(** One case of the handler, at a literal id: everything computes. *)
Ltac click_case :=
  vm_compute;
  split;
  [ split;
    [ intros [a Ha]; first [reflexivity | destruct Ha]
    | intros E; first [discriminate E | eexists; left; reflexivity] ] | ];
  split; [ intros E; first [reflexivity | discriminate E] | ];
  split; [ intros E; first [reflexivity | discriminate E] | ];
  intros a Ha;
  first [ destruct Ha as [<-|[]]; repeat split; simpl; auto 10 | destruct Ha ].

(** C9: for each of the vault items, a click calls [onSelectReality]
    exactly when the item is not locked, i.e. when its id does not start
    with "locked"; a locked item only plays the thud; and the argument
    of the call is the item's id without its "-dup", "-dup2" or "-dup3"
    suffix, one of the four base reality ids. *)
Theorem click_selects_base_reality_iff_not_locked :
  forall v : VaultItem,
    In v vaultItems ->
    (isLocked v = true <-> Js.startsWith (id (item v)) "locked" = true) /\
    ((exists a, In (onSelectReality a) (onClick v)) <-> isLocked v = false) /\
    (isLocked v = true -> onClick v = [playThud]) /\
    (isLocked v = false ->
       onClick v = [playMemoryUnlock;
                    onSelectReality (Js.replaceDupSuffix (id (item v)))]) /\
    (forall a, In (onSelectReality a) (onClick v) ->
       a = Js.replaceDupSuffix (id (item v)) /\
       In a baseRealityIds /\
       In (id (item v)) [a; a ++ "-dup"; a ++ "-dup2"; a ++ "-dup3"]).
Proof.
  intros v Hv.
  split; [reflexivity|].
  assert (Hid : In (id (item v)) (map (fun v => id (item v)) vaultItems))
    by (apply in_map_iff; exists v; split; [reflexivity | exact Hv]).
  rewrite vaultItems_ids in Hid.
  setoid_rewrite selected_In.
  rewrite onClick_clickOnId. unfold isLocked.
  generalize dependent (id (item v)). intros s Hs. clear v Hv.
  simpl in Hs.
  repeat (destruct Hs as [<-|Hs]; [click_case|]).
  contradiction.
Qed.

Lemma click_selects_base_reality_iff_not_locked_witness :
  In (place dragon 0) vaultItems /\
  onClick (place dragon 0) = [playMemoryUnlock; onSelectReality "dragon"].
Proof.
  assert (H : In (place dragon 0) vaultItems) by (left; reflexivity).
  split; [exact H|].
  exact (proj1 (proj2 (proj2 (proj2
           (click_selects_base_reality_iff_not_locked (place dragon 0) H))))
         eq_refl).
Defined.

End ClickFacts.

(** ** The particle emitter *)

Section ParticleFacts.

Import Particles.
Local Open Scope R_scope.

Lemma renderParticle_calls p u i amb c :
  snd (renderParticle p u i amb c) = after 1 c.
Proof.
  unfold after. cbn. f_equal; lia.
Qed.

Lemma after_0 c : after 0 c = c.
Proof. unfold after. destruct c; cbn. f_equal; lia. Qed.

Lemma after_after n m c : after n (after m c) = after (m + n) c.
Proof. unfold after; cbn. f_equal; lia. Qed.

Lemma mapiM_from_renderParticle p amb (l : list unit) :
  forall i c,
    mapiM_from (renderParticle p) i l amb c
    = (map (fun k => fst (renderParticle p tt (i + k) amb (after k c)))
           (seq 0 (length l)),
       after (length l) c).
Proof.
  induction l as [|[] t IH]; intros i c.
  - cbn [length seq map mapiM_from]. rewrite after_0. reflexivity.
  - change (mapiM_from (renderParticle p) i (tt :: t) amb c)
      with (let (y, c1) := renderParticle p tt i amb c in
            let (ys, c2) := mapiM_from (renderParticle p) (S i) t amb c1 in
            (y :: ys, c2)).
    destruct (renderParticle p tt i amb c) as [y c1] eqn:E.
    assert (Hc1 : c1 = after 1 c)
      by (rewrite <- (renderParticle_calls p tt i amb c), E; reflexivity).
    assert (Hy : y = fst (renderParticle p tt (i + 0) amb (after 0 c))).
    { rewrite Nat.add_0_r.
      rewrite after_0. now rewrite E. }
    rewrite IH. subst c1. rewrite after_after.
    change (length (tt :: t)) with (S (length t)).
    cbn [seq map]. rewrite <- seq_shift, map_map, <- Hy.
    f_equal. f_equal.
    apply map_ext. intros k. rewrite after_after.
    now rewrite Nat.add_succ_r.
Qed.

Lemma render_closed_form amb p :
  render amb p = map (particle amb p) (seq 0 particleCount).
Proof.
  unfold render, TakingOverParticles, mapiM.
  rewrite mapiM_from_renderParticle. cbn [fst].
  unfold particles. rewrite repeat_length. reflexivity.
Qed.

Lemma render_length amb p : length (render amb p) = particleCount.
Proof. rewrite render_closed_form. now rewrite length_map, length_seq. Qed.

Lemma render_nth_error amb p i :
  (i < particleCount)%nat ->
  nth_error (render amb p) i = Some (particle amb p i).
Proof.
  intros Hi. rewrite render_closed_form.
  rewrite nth_error_map, nth_error_seq.
  destruct (Nat.ltb_spec i particleCount); [reflexivity | lia].
Qed.

(** The style of particle [i], in terms of its six draws and its clock
    reading. *)
Lemma particle_style amb p i :
  particle amb p i
  = {| key := i;
       shapeStyle := spreadThenTransform (getShapeStyle (shapeOf p)) "translate(0, 0)";
       width := 2 + draw amb i 4 * 4;
       height := 2 + draw amb i 5 * 4;
       backgroundColor := color p;
       boxShadow := ("0 0 10px " ++ color p)%string;
       tx := cos (draw amb i 0 * PI * 2) * (80 + draw amb i 1 * 50)
             + sin (clock amb i / 1000 + INR i) * 20;
       ty := sin (draw amb i 0 * PI * 2) * (80 + draw amb i 1 * 50);
       animationDuration :=
         (2 + draw amb i 2 * 3) * getDurationMultiplier (speedOf p);
       animationDelay := draw amb i 3 * 2;
       opacity := 0 |}.
Proof.
  unfold particle, draw, clock, after, start.
  unfold renderParticle, bind, Math_random, Date_now, ret.
  cbn [fst snd randomCalls nowCalls Nat.add].
  reflexivity.
Qed.

Lemma durationAt_closed_form amb p i :
  (i < particleCount)%nat ->
  durationAt amb p i
  = Some ((2 + draw amb i 2 * 3) * getDurationMultiplier (speedOf p)).
Proof.
  intros Hi. unfold durationAt.
  now rewrite (render_nth_error amb p i Hi), particle_style.
Qed.

(** C6 (amended): the duration of a particle is [(2 + d * 3)] times the
    multiplier of the speed class, where [d] is the particle's third draw
    of [Math.random()] (so [d * 3] lies in [0, 3)) and the multiplier is
    0.2 for fast, 1.0 for normal and 3.0 for slow; on the same draws the
    fast duration is strictly below the slow one. *)
Theorem duration_scaled_by_speed_class :
  forall (amb : Ambient) (p pf ps : Props) (i : nat),
    (i < particleCount)%nat ->
    (forall k, 0 <= random amb k < 1) ->
    speedOf pf = fast ->
    speedOf ps = slow ->
    getDurationMultiplier fast = 0.2 /\
    getDurationMultiplier normal = 1.0 /\
    getDurationMultiplier slow = 3.0 /\
    0 <= draw amb i 2 * 3 < 3 /\
    durationAt amb p i
    = Some ((2 + draw amb i 2 * 3) * getDurationMultiplier (speedOf p)) /\
    exists df ds : R,
      durationAt amb pf i = Some df /\
      durationAt amb ps i = Some ds /\
      df = (2 + draw amb i 2 * 3) * 0.2 /\
      ds = (2 + draw amb i 2 * 3) * 3.0 /\
      df < ds.
Proof.
  intros amb p pf ps i Hi Hu Hf Hs.
  assert (Hd : 0 <= draw amb i 2 < 1) by apply Hu.
  split; [reflexivity|]. split; [reflexivity|]. split; [reflexivity|].
  split; [lra|].
  split; [now apply durationAt_closed_form|].
  exists ((2 + draw amb i 2 * 3) * 0.2), ((2 + draw amb i 2 * 3) * 3.0).
  split; [rewrite (durationAt_closed_form amb pf i Hi), Hf; reflexivity|].
  split; [rewrite (durationAt_closed_form amb ps i Hi), Hs; reflexivity|].
  split; [reflexivity|]. split; [reflexivity|].
  nra.
Qed.

(** In exact arithmetic, and there only, the two durations are in the
    ratio of the multipliers. *)
Lemma duration_ratio_in_exact_arithmetic (d : R) :
  0 <= d ->
  ((2 + d * 3) * 0.2) / ((2 + d * 3) * 3.0) = 0.2 / 3.0.
Proof. intros Hd. field. lra. Qed.

Lemma calm_uniform : forall k, 0 <= random calm k < 1.
Proof. intros k. simpl. lra. Qed.

Lemma duration_scaled_by_speed_class_witness :
  (0 < particleCount)%nat /\
  durationAt calm (plainProps None) 0 = Some ((2 + draw calm 0 2 * 3) * 1.0) /\
  exists df ds : R,
    durationAt calm (plainProps (Some fast)) 0 = Some df /\
    durationAt calm (plainProps (Some slow)) 0 = Some ds /\
    df < ds.
Proof.
  assert (H0 : (0 < particleCount)%nat) by (unfold particleCount; lia).
  destruct (duration_scaled_by_speed_class calm (plainProps None)
              (plainProps (Some fast)) (plainProps (Some slow)) 0
              H0 calm_uniform eq_refl eq_refl)
    as (_ & _ & _ & _ & Hp & df & ds & Hf & Hs & _ & _ & Hlt).
  split; [exact H0|]. split; [exact Hp|].
  exists df, ds. split; [exact Hf|]. split; [exact Hs | exact Hlt].
Defined.

Lemma sin_1_positive : 0 < sin 1.
Proof. generalize PI2_1. intros H. apply sin_gt_0; lra. Qed.

(** C7 (as stated, refuted): [calm] and [later] return the same values
    from [Math.random()], yet the renders with the same props differ: the
    clock read by the wind term differs. *)
Lemma same_draws_different_clock_different_render :
  random calm = random later /\
  render calm (plainProps None) <> render later (plainProps None).
Proof.
  split; [reflexivity|].
  intros E.
  assert (H0 : (0 < particleCount)%nat) by (unfold particleCount; lia).
  apply (f_equal (fun l => option_map tx (nth_error l 0))) in E.
  rewrite !(render_nth_error _ _ 0 H0), !particle_style in E.
  cbn [option_map tx] in E. injection E as E.
  unfold draw, clock in E. cbn [random now calm later INR] in E.
  replace (1000 / 1000 + 0) with 1 in E by lra.
  replace (0 / 1000 + 0) with 0 in E by lra.
  rewrite sin_0 in E. generalize sin_1_positive. lra.
Qed.

Lemma draw_agree ambA ambB i k :
  (forall n, (n < 6 * particleCount)%nat -> random ambA n = random ambB n) ->
  (i < particleCount)%nat -> (k < 6)%nat ->
  draw ambA i k = draw ambB i k.
Proof. intros H Hi Hk. unfold draw. apply H. lia. Qed.

(** C7 (amended): when two renders with the same props read the same
    values from [Math.random()], their outputs have the same length and
    the i-th styles agree on every field but [tx]; they agree on [tx] too,
    and so are equal, when the i-th readings of [Date.now()] agree; when
    the renders read the same values from [Date.now()] for all particles,
    the two outputs are equal. *)
Theorem render_determined_by_draws_and_clock :
  forall (ambA ambB : Ambient) (p : Props),
    (forall n, (n < 6 * particleCount)%nat -> random ambA n = random ambB n) ->
    length (render ambA p) = length (render ambB p) /\
    (forall i qa qb,
        nth_error (render ambA p) i = Some qa ->
        nth_error (render ambB p) i = Some qb ->
        sameButTx qa qb /\
        (now ambA i = now ambB i -> qa = qb)) /\
    ((forall i, (i < particleCount)%nat -> now ambA i = now ambB i) ->
     render ambA p = render ambB p).
Proof.
  intros ambA ambB p Hr.
  split; [now rewrite !render_length|].
  split.
  - intros i qa qb Ha Hb.
    assert (Hi : (i < particleCount)%nat).
    { rewrite <- (render_length ambA p). apply nth_error_Some. congruence. }
    rewrite (render_nth_error ambA p i Hi) in Ha.
    rewrite (render_nth_error ambB p i Hi) in Hb.
    injection Ha as <-. injection Hb as <-.
    rewrite !particle_style. unfold sameButTx. cbn.
    rewrite !(draw_agree ambA ambB i) by (auto; lia).
    split; [repeat split|].
    unfold clock. intros ->. reflexivity.
  - intros Hn. rewrite !render_closed_form.
    apply map_ext_in. intros i Hi. apply in_seq in Hi.
    rewrite !particle_style. unfold clock.
    rewrite (Hn i) by lia.
    rewrite !(draw_agree ambA ambB i) by (auto; lia).
    reflexivity.
Qed.

Lemma calm_and_calmThenWindy_draws :
  forall n, (n < 6 * particleCount)%nat -> random calm n = random calmThenWindy n.
Proof.
  intros n Hn. unfold particleCount in Hn. cbn [random calm calmThenWindy].
  destruct (Nat.ltb_spec n 240); [reflexivity | lia].
Qed.

Lemma calm_and_calmThenWindy_clock :
  forall i, (i < particleCount)%nat -> now calm i = now calmThenWindy i.
Proof.
  intros i Hi. unfold particleCount in Hi. cbn [now calm calmThenWindy].
  destruct (Nat.ltb_spec i 40); [reflexivity | lia].
Qed.

Lemma render_determined_by_draws_and_clock_witness :
  random calm 240 <> random calmThenWindy 240 /\
  now calm 40 <> now calmThenWindy 40 /\
  render calm (plainProps None) = render calmThenWindy (plainProps None).
Proof.
  split; [cbn; lra|]. split; [cbn; lra|].
  exact (proj2 (proj2 (render_determined_by_draws_and_clock calm calmThenWindy
                         (plainProps None) calm_and_calmThenWindy_draws))
               calm_and_calmThenWindy_clock).
Defined.

(** Width and height are two separate draws, each in [2, 6) for draws in
    [0, 1); they coincide exactly when the two draws do. *)
Lemma width_height_draws amb p i :
  width (particle amb p i) = 2 + draw amb i 4 * 4 /\
  height (particle amb p i) = 2 + draw amb i 5 * 4 /\
  (width (particle amb p i) = height (particle amb p i)
   <-> draw amb i 4 = draw amb i 5).
Proof.
  rewrite particle_style. cbn [width height].
  split; [reflexivity|]. split; [reflexivity|]. split; intros H; lra.
Qed.

(** C8 (the defect): with the draws of [unevenDraws], all in [0, 1), the
    first particle is rendered 3px wide and 5px high: width and height
    come from two calls of [Math.random()], not from one size. *)
Theorem first_particle_width_differs_from_height :
  (forall k, 0 <= random unevenDraws k < 1) /\
  exists q : ParticleStyle,
    nth_error (render unevenDraws (plainProps None)) 0 = Some q /\
    width q = 3 /\
    height q = 5 /\
    width q <> height q.
Proof.
  split.
  - intros k. simpl.
    do 6 (destruct k as [|k]; [lra|]). lra.
  - exists (particle unevenDraws (plainProps None) 0).
    assert (H0 : (0 < particleCount)%nat) by (unfold particleCount; lia).
    split; [now apply render_nth_error|].
    rewrite particle_style. cbn [width height]. unfold draw. simpl.
    repeat split; lra.
Qed.

End ParticleFacts.

(** ** The duration ratio in binary64 *)

Section Duration64Facts.

Import Duration64.
Local Open Scope float_scope.

(** C6 (as stated, refuted): for the draw 0.5, which is in [0, 1), the
    fast duration is 0.7000000000000001 and the slow one 10.5; the fast
    one is the smaller, but their ratio is 0.06666666666666668 and not
    0.2/3.0 = 0.06666666666666667: the ratio of the multipliers is not
    kept exactly. *)
Lemma duration_ratio_not_exact_in_binary64 :
  (0 <=? 0.5) = true /\
  (0.5 <? 1) = true /\
  duration 0.5 Particles.fast = 0x1.6666666666667p-1 /\
  duration 0.5 Particles.slow = 10.5 /\
  (duration 0.5 Particles.fast <? duration 0.5 Particles.slow) = true /\
  duration 0.5 Particles.fast / duration 0.5 Particles.slow = 0x1.1111111111112p-4 /\
  0.2 / 3.0 = 0x1.1111111111111p-4 /\
  (duration 0.5 Particles.fast / duration 0.5 Particles.slow =? 0.2 / 3.0) = false /\
  duration 0.5 Particles.fast / duration 0.5 Particles.slow <> 0.2 / 3.0.
Proof.
  repeat split; try (vm_compute; reflexivity).
  intros E.
  assert (H : (duration 0.5 Particles.fast / duration 0.5 Particles.slow =? 0.2 / 3.0)
              = (0.2 / 3.0 =? 0.2 / 3.0)) by (rewrite E; reflexivity).
  vm_compute in H. discriminate H.
Qed.

End Duration64Facts.

(** ** The corruption hook *)

Section CorruptionFacts.

Import Corruption.
Local Open Scope float_scope.

(** C10 (the defect): on a hook mounted active, the 200th firing of the
    interval leaves 1.0000000000000007 in the state variable, a reachable
    value above 1.  The guard [prev >= 1] tests the value before the
    addition, and 200 rounded additions of 0.005 do not land on 1; the
    201st firing then stores 1. *)
Theorem corruption_exceeds_one_after_200_ticks :
  let h := run (mount true) twoHundredTicks in
  reachable h /\
  corruption h = 0x1.0000000000003p+0 /\
  (1 <? corruption h) = true /\
  inUnitInterval (corruption h) = false /\
  corruption (step h Interval) = 1.
Proof.
  cbv zeta. split.
  - exists true, twoHundredTicks. reflexivity.
  - repeat split; vm_compute; reflexivity.
Qed.

(** How far the defect goes: every reachable value of the state variable
    is one of the iterates of [tick] from 0, these are constant 1 from the
    201st on, and the only one outside [0, 1] is the 200th. *)

Lemma tick_ticks (n : nat) : tick (ticks n) = ticks (S n).
Proof. reflexivity. Qed.

Lemma ticks_saturated (n : nat) : (201 <= n)%nat -> ticks n = 1.
Proof.
  induction 1 as [|m Hm IH].
  - vm_compute. reflexivity.
  - rewrite <- tick_ticks, IH. reflexivity.
Qed.

Lemma ticks_first_202 :
  forallb (fun k => withinOvershoot (ticks k)
                    && ((k =? 200)%nat || inUnitInterval (ticks k)))
          (seq 0 202) = true.
Proof. vm_compute. reflexivity. Qed.

Lemma ticks_bounds (n : nat) :
  withinOvershoot (ticks n) = true /\
  (n <> 200%nat -> inUnitInterval (ticks n) = true).
Proof.
  destruct (Nat.lt_ge_cases n 202) as [Hn|Hn].
  - generalize ticks_first_202. rewrite forallb_forall. intros H.
    specialize (H n). rewrite in_seq in H.
    assert (Hn' : (0 <= n < 0 + 202)%nat) by lia.
    apply H in Hn'. apply andb_true_iff in Hn' as [Hw Hu].
    split; [exact Hw|]. intros Hne.
    apply orb_true_iff in Hu as [Hu|Hu]; [|exact Hu].
    apply Nat.eqb_eq in Hu. contradiction.
  - rewrite ticks_saturated by lia. split; [|intros _]; vm_compute; reflexivity.
Qed.

Lemma run_snoc (h : Hook) (es : list Event) (e : Event) :
  run h (es ++ [e]) = step (run h es) e.
Proof. unfold run. now rewrite fold_left_app. Qed.

Lemma reachable_ticks (h : Hook) :
  reachable h -> exists n, corruption h = ticks n.
Proof.
  intros (active & es & ->).
  induction es as [|e es IH] using rev_ind.
  - exists 0%nat. destruct active; reflexivity.
  - rewrite run_snoc. destruct IH as [n IH].
    set (h := run (mount active) es) in *.
    destruct e as [|b]; simpl.
    + destruct (isActive h); [|now exists n].
      exists (S n). simpl. now rewrite IH.
    + destruct (Bool.eqb b (isActive h)); [now exists n|].
      destruct b; simpl; [now exists n | now exists 0%nat].
Qed.

Lemma reachable_corruption_bounds (h : Hook) :
  reachable h ->
  withinOvershoot (corruption h) = true /\
  (inUnitInterval (corruption h) = false ->
   corruption h = 0x1.0000000000003p+0).
Proof.
  intros Hr. destruct (reachable_ticks h Hr) as [n ->].
  destruct (ticks_bounds n) as [Hw Hu]. split; [exact Hw|].
  intros Hout. destruct (Nat.eq_dec n 200) as [->|Hne].
  - vm_compute. reflexivity.
  - rewrite (Hu Hne) in Hout. discriminate.
Qed.

End CorruptionFacts.

(** In exact arithmetic the 200th addition lands on 1 and the value never
    leaves [0, 1]: the overshoot above is an effect of rounding alone. *)
Section CorruptionExactFacts.

Import CorruptionExact.
Local Open Scope R_scope.

Lemma exact_ticks_multiple (n : nat) :
  exists k, (k <= 200)%nat /\ ticks n = INR k * 0.005.
Proof.
  induction n as [|n [k [Hk IH]]].
  - exists 0%nat. split; [lia | simpl; unfold ticks; simpl; lra].
  - change (ticks (S n)) with (tick (ticks n)). rewrite IH. unfold tick.
    destruct (Rle_dec 1 (INR k * 0.005)) as [H|H].
    + exists 200%nat. split; [lia|].
      rewrite INR_IZR_INZ. simpl. lra.
    + exists (S k). split.
      * assert (Hlt : INR k < INR 200).
        { rewrite (INR_IZR_INZ 200). simpl. lra. }
        apply INR_lt in Hlt. lia.
      * rewrite S_INR. lra.
Qed.

Lemma exact_ticks_in_unit_interval (n : nat) : 0 <= ticks n <= 1.
Proof.
  destruct (exact_ticks_multiple n) as [k [Hk ->]].
  assert (H0 : 0 <= INR k) by apply pos_INR.
  assert (H1 : INR k <= INR 200) by (apply le_INR; exact Hk).
  rewrite (INR_IZR_INZ 200) in H1. simpl in H1. lra.
Qed.

End CorruptionExactFacts.

(** ** More on the helix layout *)

Section HelixGeometry.

Local Open Scope R_scope.

Lemma mapi_from_Forall_indexed {X Y : Type} (f : X -> nat -> Y)
  (P : Y -> Prop) (l : list X) :
  forall s,
    (forall x i, (s <= i < s + length l)%nat -> P (f x i)) ->
    Forall P (Js.mapi_from f s l).
Proof.
  induction l as [|x t IH]; intros s H; simpl; constructor.
  - apply H. simpl. lia.
  - apply IH. intros y i Hi. apply H. simpl. lia.
Qed.

Lemma layoutHelix_nth_error_place (items : list RealityItem) (i : nat) (v : VaultItem) :
  nth_error (layoutHelix items) i = Some v ->
  exists it, nth_error items i = Some it /\ v = place it i.
Proof.
  rewrite layoutHelix_nth_error.
  destruct (nth_error items i) as [it|]; simpl; [|discriminate].
  intros E. injection E as <-. now exists it.
Qed.

(** X1: down the list the items go down the page: a later placement is
    110 pixels lower per index step, and its animation starts later; no
    delay is negative. *)
Theorem top_and_delay_increase_with_index :
  forall (items : list RealityItem) (i j : nat) (v w : VaultItem),
    nth_error (layoutHelix items) i = Some v ->
    nth_error (layoutHelix items) j = Some w ->
    (i < j)%nat ->
    top v < top w /\
    top w - top v = 110 * INR (j - i) /\
    0 <= delay v < delay w.
Proof.
  intros items i j v w Hv Hw Hij.
  apply layoutHelix_nth_error_place in Hv as (a & _ & ->).
  apply layoutHelix_nth_error_place in Hw as (b & _ & ->).
  cbn [top delay place]. unfold Helix.verticalSpacing.
  assert (Hi : 0 <= INR i) by apply pos_INR.
  assert (Hlt : INR i < INR j) by (apply lt_INR; exact Hij).
  rewrite minus_INR by lia.
  repeat split; lra.
Qed.

Lemma top_and_delay_increase_with_index_witness :
  top (place dragon 0) < top (place cosmic 1) /\
  delay (place dragon 0) < delay (place cosmic 1).
Proof.
  destruct (top_and_delay_increase_with_index baseItems 0 1
              (place dragon 0) (place cosmic 1) eq_refl eq_refl
              (Nat.lt_0_succ 0))
    as (Ht & _ & [_ Hd]).
  split; [exact Ht | exact Hd].
Defined.

Lemma xOffset_range (i : nat) : -90 <= Helix.xOffset i <= 90.
Proof.
  unfold Helix.xOffset, Helix.amplitude.
  generalize (SIN_bound (Helix.angle i)). lra.
Qed.

(** X2: every placement is centred between -40% and 140% of the width
    (50 plus or minus the amplitude 90) and tilted by at most 10 degrees,
    and it leans the way it is offset: a tilt that is not negative goes
    with a centre at 50% or to the right of it, a tilt that is not
    positive with a centre at 50% or to the left. *)
Theorem left_and_rotation_ranges :
  forall items : list RealityItem,
    Forall (fun v => -40 <= left v <= 140 /\
                     -10 <= rotation v <= 10 /\
                     (0 <= rotation v -> 50 <= left v) /\
                     (rotation v <= 0 -> left v <= 50))
           (layoutHelix items).
Proof.
  intros items. unfold layoutHelix, Js.mapi.
  apply mapi_from_Forall. intros x i. cbn [left rotation place].
  generalize (xOffset_range i). unfold Helix.xOffset, Helix.amplitude.
  generalize (SIN_bound (Helix.angle i)). intros Hs Hx.
  repeat split; try lra; intros H; lra.
Qed.

Lemma left_and_rotation_ranges_witness :
  50 <= left (place dragon 0).
Proof.
  generalize (left_and_rotation_ranges [dragon]). intros H.
  apply Forall_inv in H. destruct H as (_ & _ & Hpos & _).
  apply Hpos. cbn [rotation place]. unfold Helix.angle. simpl.
  replace (0 * Helix.frequency + 0) with 0 by ring. rewrite sin_0. lra.
Defined.

(** X3: scale and opacity never disagree: of two placements, of the same
    or of different layouts, the one with the strictly larger scale never
    has the smaller opacity, and the one with the strictly larger opacity
    never has the smaller scale. *)
Theorem scale_and_opacity_never_disagree :
  forall (items items' : list RealityItem) (v w : VaultItem),
    In v (layoutHelix items) ->
    In w (layoutHelix items') ->
    (scale v < scale w -> opacity v <= opacity w) /\
    (opacity v < opacity w -> scale v <= scale w).
Proof.
  intros items items' v w Hv Hw.
  apply In_nth_error in Hv as [i Hv]. apply In_nth_error in Hw as [j Hw].
  apply layoutHelix_nth_error_place in Hv as (a & _ & ->).
  apply layoutHelix_nth_error_place in Hw as (b & _ & ->).
  cbn [scale opacity place].
  rewrite !zScale_of_depth, !opacity_of_depth.
  split; intros H; lra.
Qed.

Lemma scale_and_opacity_never_disagree_witness :
  scale (place cosmic 1) < scale (place dragon 0) /\
  opacity (place cosmic 1) <= opacity (place dragon 0).
Proof.
  assert (H : scale (place cosmic 1) < scale (place dragon 0)).
  { cbn [scale place]. rewrite !zScale_of_depth, depth_0.
    generalize depth_1_negative. lra. }
  split; [exact H|].
  refine (proj1 (scale_and_opacity_never_disagree baseItems baseItems
                   (place cosmic 1) (place dragon 0) _ _) H).
  - right. left. reflexivity.
  - left. reflexivity.
Defined.

(** X4: the z-order of every placement is between 60 and 110, below the
    z-index 200 that a hovered item takes. *)
Theorem zIndex_range :
  forall items : list RealityItem,
    Forall (fun v => (60 <= zIndex v <= 110)%Z /\ (zIndex v < 200)%Z)
           (layoutHelix items).
Proof.
  intros items. unfold layoutHelix, Js.mapi.
  apply mapi_from_Forall. intros x i. cbn [zIndex place].
  unfold Helix.zIndex.
  generalize (zScale_range i), (Int_part_floor (Helix.zScale i * 100)).
  intros Hs Hf.
  assert (H1 : (59 < Int_part (Helix.zScale i * 100))%Z)
    by (apply lt_IZR; lra).
  assert (H2 : (Int_part (Helix.zScale i * 100) < 111)%Z)
    by (apply lt_IZR; lra).
  lia.
Qed.

(** X6: the container is tall enough: every item's box, 160 pixels high
    from its [top], ends at or above the container's height
    [length * 110 + 200]; the last item ends exactly there. *)
Theorem items_fit_in_container :
  forall items : list RealityItem,
    Forall (fun v => 150 <= top v /\
                     top v + itemBox <= containerHeight (layoutHelix items))
           (layoutHelix items) /\
    (forall it, items <> [] ->
       nth_error (layoutHelix items) (length items - 1) = Some it ->
       top it + itemBox = containerHeight (layoutHelix items)).
Proof.
  intros items. unfold containerHeight, itemBox.
  assert (Hlen : length (layoutHelix items) = length items)
    by apply mapi_from_length.
  rewrite Hlen. split.
  - unfold layoutHelix, Js.mapi. apply mapi_from_Forall_indexed.
    intros x i Hi. cbn [top place]. unfold Helix.verticalSpacing.
    assert (H0 : 0 <= INR i) by apply pos_INR.
    assert (H1 : INR i + 1 <= INR (length items)).
    { rewrite <- S_INR. apply le_INR. lia. }
    lra.
  - intros it Hne Hit.
    apply layoutHelix_nth_error_place in Hit as (a & _ & ->).
    cbn [top place]. unfold Helix.verticalSpacing.
    assert (Hpos : (1 <= length items)%nat)
      by (destruct items; [contradiction | simpl; lia]).
    rewrite minus_INR by exact Hpos. simpl (INR 1). lra.
Qed.

Lemma items_fit_in_container_witness :
  top (place forest 3) + itemBox = containerHeight (layoutHelix realities).
Proof.
  refine (proj2 (items_fit_in_container realities) (place forest 3) _ eq_refl).
  discriminate.
Defined.

(** X7: the header is fully opaque at the top of the scroll, fades
    linearly, is gone from 200 pixels on, never leaves [0, 1] and never
    grows when one scrolls further down. *)
Theorem header_opacity_fades_with_scroll :
  forall s t : R,
    0 <= s <= t ->
    0 <= handleScroll t <= handleScroll s /\
    handleScroll s <= 1 /\
    handleScroll 0 = 1 /\
    (s <= 200 -> handleScroll s = 1 - s / 200) /\
    (200 <= s -> handleScroll s = 0).
Proof.
  intros s t [Hs Hst]. unfold handleScroll.
  repeat split.
  - apply Rmax_l.
  - apply Rle_max_compat_l. lra.
  - apply Rmax_lub; lra.
  - rewrite Rmax_right; lra.
  - intros H. rewrite Rmax_right; lra.
  - intros H. rewrite Rmax_left; lra.
Qed.

Lemma header_opacity_fades_with_scroll_witness :
  0 <= 50 <= 100 /\ handleScroll 100 <= handleScroll 50.
Proof.
  assert (H : 0 <= 50 <= 100) by lra.
  split; [exact H|].
  exact (proj2 (proj1 (header_opacity_fades_with_scroll 50 100 H))).
Defined.

End HelixGeometry.

(** ** More on the particle emitter *)

Section ParticleGeometry.

Import Particles ParticleCallers.
Local Open Scope R_scope.

Lemma render_Forall (amb : Ambient) (p : Props) (P : ParticleStyle -> Prop) :
  (forall i, (i < particleCount)%nat -> P (particle amb p i)) ->
  Forall P (render amb p).
Proof.
  intros H. rewrite render_closed_form. apply Forall_forall.
  intros q Hq. apply in_map_iff in Hq as (i & <- & Hi).
  apply in_seq in Hi. apply H. lia.
Qed.

(** X8: a render gives forty particles, keyed 0 to 39 in order (so no two
    share a key), all with the colour of the props, opacity 0, and the
    border radius and the clip path of the props' shape; the transform of
    every one is [translate(0, 0)], also for the diamond, whose
    [rotate(45deg)] is overwritten by the later key of the style. *)
Theorem render_forty_keyed_particles :
  forall (amb : Ambient) (p : Props),
    length (render amb p) = 40%nat /\
    map key (render amb p) = seq 0 40 /\
    NoDup (map key (render amb p)) /\
    Forall (fun q => backgroundColor q = color p /\
                     opacity q = 0 /\
                     borderRadius (shapeStyle q)
                     = borderRadius (getShapeStyle (shapeOf p)) /\
                     clipPath (shapeStyle q)
                     = clipPath (getShapeStyle (shapeOf p)) /\
                     transform (shapeStyle q) = Some "translate(0, 0)"%string /\
                     transform (shapeStyle q)
                     <> transform (getShapeStyle diamond))
           (render amb p).
Proof.
  intros amb p.
  assert (Hk : map key (render amb p) = seq 0 40).
  { rewrite render_closed_form, map_map.
    rewrite (map_ext _ (fun i => i)); [apply map_id|].
    intros i. now rewrite particle_style. }
  split; [apply render_length|]. split; [exact Hk|].
  split; [rewrite Hk; apply seq_NoDup|].
  apply render_Forall. intros i _. rewrite particle_style.
  cbn [backgroundColor opacity shapeStyle spreadThenTransform
       borderRadius clipPath transform].
  repeat split. simpl. discriminate.
Qed.

Lemma draw_uniform (amb : Ambient) (i k : nat) :
  (forall n, 0 <= random amb n < 1) -> 0 <= draw amb i k < 1.
Proof. intros H. apply H. Qed.

(** X9: with draws in [0, 1), no particle flies further than 150 to
    either side and 130 up or down: the distance drawn is between 80 and
    130, the wind adds between -20 and 20 to the horizontal offset. *)
Theorem particle_end_offsets_bounded :
  forall (amb : Ambient) (p : Props) (i : nat),
    (forall n, 0 <= random amb n < 1) ->
    (i < particleCount)%nat ->
    exists q : ParticleStyle,
      nth_error (render amb p) i = Some q /\
      80 <= distance amb i <= 130 /\
      -20 <= windX amb i <= 20 /\
      -150 <= tx q <= 150 /\
      -130 <= ty q <= 130.
Proof.
  intros amb p i Hu Hi.
  exists (particle amb p i). split; [now apply render_nth_error|].
  rewrite particle_style. cbn [tx ty]. unfold windX, distance.
  generalize (draw_uniform amb i 1 Hu). intros Hd.
  set (a := draw amb i 0 * PI * 2).
  set (d := 80 + draw amb i 1 * 50).
  set (w := sin (clock amb i / 1000 + INR i)).
  assert (Hd' : 80 <= d <= 130) by (unfold d; lra).
  generalize (SIN_bound a), (COS_bound a),
             (SIN_bound (clock amb i / 1000 + INR i)).
  fold w. intros Hs Hc Hw.
  split; [exact Hd'|]. split; [lra|].
  split; split; nra.
Qed.

Lemma particle_end_offsets_bounded_witness :
  exists q : ParticleStyle,
    nth_error (render calm (plainProps None)) 0 = Some q /\
    -150 <= tx q <= 150.
Proof.
  assert (H0 : (0 < particleCount)%nat) by (unfold particleCount; lia).
  destruct (particle_end_offsets_bounded calm (plainProps None) 0 calm_uniform H0)
    as (q & Hq & _ & _ & Htx & _).
  exists q. split; [exact Hq | exact Htx].
Defined.

(** X10: with draws in [0, 1), every particle of a render is between 2
    and 6 pixels wide and high, starts after a delay of at least 0 and
    less than 2 seconds, and its animation lasts between 2 and 5 times the
    multiplier of the speed class: a positive duration of at most 15
    seconds. *)
Theorem particle_size_delay_duration_ranges :
  forall (amb : Ambient) (p : Props),
    (forall n, 0 <= random amb n < 1) ->
    Forall (fun q =>
              2 <= width q <= 6 /\
              2 <= height q <= 6 /\
              0 <= animationDelay q < 2 /\
              2 * getDurationMultiplier (speedOf p) <= animationDuration q
                <= 5 * getDurationMultiplier (speedOf p) /\
              0 < animationDuration q <= 15)
           (render amb p).
Proof.
  intros amb p Hu. apply render_Forall. intros i _.
  rewrite particle_style. cbn [width height animationDelay animationDuration].
  generalize (draw_uniform amb i 2 Hu), (draw_uniform amb i 3 Hu),
             (draw_uniform amb i 4 Hu), (draw_uniform amb i 5 Hu).
  intros H2 H3 H4 H5.
  assert (Hm : 0.2 <= getDurationMultiplier (speedOf p) <= 3)
    by (destruct (speedOf p); simpl; lra).
  repeat split; try lra; nra.
Qed.

Lemma particle_size_delay_duration_ranges_witness :
  Forall (fun q => 2 <= width q <= 6) (render calm (plainProps None)).
Proof.
  generalize (particle_size_delay_duration_ranges calm (plainProps None) calm_uniform).
  apply Forall_impl. intros q H. exact (proj1 H).
Defined.

Lemma speedFor_cases (s : string) :
  (speedFor s = fast <-> s = "dragon"%string) /\
  (speedFor s = slow <-> s = "cosmic"%string) /\
  (speedFor s = normal <-> s <> "dragon"%string /\ s <> "cosmic"%string).
Proof.
  unfold speedFor.
  destruct (String.eqb_spec s "dragon") as [->|Hd].
  - simpl. repeat split; try congruence; try discriminate.
    intros [H _]. now contradiction H.
  - destruct (String.eqb_spec s "cosmic") as [->|Hc].
    + repeat split; try congruence; try discriminate.
      intros [_ H]. now contradiction H.
    + repeat split; try congruence; try discriminate; tauto.
Qed.

(** X11: the callers make the dragon's particles fast, the cosmic ones
    slow and all others normal; so, with draws in [0, 1), every particle
    of the dragon reality lasts between 0.4 and 1 second, every particle
    of the cosmic reality between 6 and 15 seconds, and every other
    between 2 and 5 seconds: the three classes never overlap. *)
Theorem reality_decides_duration_class :
  forall (amb : Ambient) (reality : RealityItem) (c : R),
    (forall n, 0 <= random amb n < 1) ->
    (speedFor (id reality) = fast <-> id reality = "dragon"%string) /\
    (speedFor (id reality) = slow <-> id reality = "cosmic"%string) /\
    Forall (fun q =>
              (id reality = "dragon"%string -> 0.4 <= animationDuration q <= 1) /\
              (id reality = "cosmic"%string -> 6 <= animationDuration q <= 15) /\
              (id reality <> "dragon"%string -> id reality <> "cosmic"%string ->
               2 <= animationDuration q <= 5))
           (render amb (propsFor reality c)).
Proof.
  intros amb reality c Hu.
  destruct (speedFor_cases (id reality)) as (Hf & Hs & Hn).
  split; [exact Hf|]. split; [exact Hs|].
  generalize (particle_size_delay_duration_ranges amb (propsFor reality c) Hu).
  apply Forall_impl. intros q (_ & _ & _ & Hd & _).
  change (speedOf (propsFor reality c)) with (speedFor (id reality)) in Hd.
  repeat split.
  - apply Hf in H. rewrite H in Hd. simpl in Hd. lra.
  - apply Hf in H. rewrite H in Hd. simpl in Hd. lra.
  - apply Hs in H. rewrite H in Hd. simpl in Hd. lra.
  - apply Hs in H. rewrite H in Hd. simpl in Hd. lra.
  - assert (E : speedFor (id reality) = normal) by (apply Hn; tauto).
    rewrite E in Hd. simpl in Hd. lra.
  - assert (E : speedFor (id reality) = normal) by (apply Hn; tauto).
    rewrite E in Hd. simpl in Hd. lra.
Qed.

Lemma reality_decides_duration_class_witness :
  Forall (fun q => 0.4 <= animationDuration q <= 1)
         (render calm (propsFor dragon 0)).
Proof.
  destruct (reality_decides_duration_class calm dragon 0 calm_uniform)
    as (_ & _ & H).
  revert H. apply Forall_impl. intros q (Hd & _). apply Hd. reflexivity.
Defined.

Lemma renderParticle_shifted p i amb r n c :
  fst (renderParticle p tt i amb
         {| randomCalls := r + randomCalls c; nowCalls := n + nowCalls c |})
  = fst (renderParticle p tt i (shifted r n amb) c).
Proof.
  unfold renderParticle, bind, Math_random, Date_now, ret, shifted.
  cbn [fst snd randomCalls nowCalls random now].
  rewrite <- !Nat.add_succ_r. reflexivity.
Qed.

(** X12: the styles are not kept between renders: a second render of the
    component reads the next 240 values of [Math.random()] and the next 40
    clock readings, so it is the render of the ambient shifted by 240
    draws and 40 readings; after both, 480 draws and 80 readings are
    used up. *)
Theorem second_render_draws_afresh :
  forall (amb : Ambient) (p : Props),
    renderTwice p amb start
    = ((render amb p, render (shifted 240 40 amb) p),
       {| randomCalls := 480; nowCalls := 80 |}).
Proof.
  intros amb p. unfold renderTwice, bind, ret.
  unfold render, TakingOverParticles, mapiM.
  rewrite !mapiM_from_renderParticle. cbn [fst].
  unfold particles. rewrite repeat_length.
  apply f_equal2; [apply f_equal2; [reflexivity|] | reflexivity].
  apply map_ext. intros k.
  rewrite <- renderParticle_shifted. reflexivity.
Qed.

End ParticleGeometry.

(** ** The portal's hover particles *)

Section HoverFacts.

Import HoverParticles HoverProfile.
Local Open Scope R_scope.

Variable rnd : nat -> R.
Variables realityId color : string.

Let f := hoverParticle realityId color.

Ltac hover_cases :=
  unfold f, hoverParticle, bind, Math_random, setProperty, ret,
         drawsPer, inProfile, sizeRange, durationRange, animationOf, resolved;
  destruct (isDragon realityId); [|destruct (isCosmic realityId)];
  cbn [fst snd randomCalls rootStyle orb
       key width height backgroundColor boxShadowBlur boxShadowColor
       txRef tyRef animation animationDuration animationDelay opacity
       CssVar_eqb indexOf].

Lemma hoverParticle_calls (i : nat) (d : Doc) :
  randomCalls (snd (f tt i rnd d)) = (drawsPer realityId + randomCalls d)%nat.
Proof. hover_cases; reflexivity. Qed.

Lemma hoverParticle_frame (i : nat) (d : Doc) (v : CssVar) :
  indexOf v <> i ->
  rootStyle (snd (f tt i rnd d)) v = rootStyle d v.
Proof.
  intros Hv.
  assert (Hb : (indexOf v =? i)%nat = false) by now apply Nat.eqb_neq.
  hover_cases; destruct v; cbn [CssVar_eqb indexOf] in *;
    rewrite ?Hb; reflexivity.
Qed.

Lemma hoverParticle_refs (i : nat) (d : Doc) :
  indexOf (txRef (fst (f tt i rnd d))) = i /\
  indexOf (tyRef (fst (f tt i rnd d))) = i.
Proof. hover_cases; split; reflexivity. Qed.

(** The style of a particle does not read the document's properties. *)
Lemma hoverParticle_style (i : nat) (d : Doc) :
  fst (f tt i rnd d)
  = fst (f tt i rnd {| randomCalls := randomCalls d; rootStyle := fun _ => None |}).
Proof. hover_cases; reflexivity. Qed.

Hypothesis uniform : forall n, 0 <= rnd n < 1.

Lemma hoverParticle_resolved (i : nat) (d : Doc) :
  exists x y,
    resolved (snd (f tt i rnd d)) (fst (f tt i rnd d)) = (Some x, Some y) /\
    inProfile realityId x y.
Proof.
  hover_cases; rewrite ?Nat.eqb_refl; cbn [CssVar_eqb].
  - eexists; eexists; split; [reflexivity|].
    generalize (uniform (S (randomCalls d))),
               (uniform (S (S (randomCalls d)))). lra.
  - eexists; eexists; split; [reflexivity|].
    generalize (uniform (S (randomCalls d))),
               (uniform (S (S (randomCalls d)))). lra.
  - eexists; eexists; split; [reflexivity|].
    generalize (uniform (S (S (randomCalls d)))). intros Hd.
    set (a := rnd (S (randomCalls d)) * PI * 2).
    set (r := 50 + rnd (S (S (randomCalls d))) * 100).
    assert (Hr : 50 <= r <= 150) by (unfold r; lra).
    generalize (SIN_bound a), (COS_bound a). intros Hs Hc.
    split; split; nra.
Qed.

Lemma hoverParticle_ranges (i : nat) (d : Doc) :
  let q := fst (f tt i rnd d) in
  key q = i /\
  width q = height q /\
  fst (sizeRange realityId) <= width q <= snd (sizeRange realityId) /\
  boxShadowBlur q = width q * 3 /\
  animation q = animationOf realityId /\
  fst (durationRange realityId) <= animationDuration q
    <= snd (durationRange realityId) /\
  0 <= animationDelay q < 1 /\
  opacity q = 0.
Proof.
  hover_cases.
  - generalize (uniform (randomCalls d)),
               (uniform (S (S (S (randomCalls d))))),
               (uniform (S (S (S (S (S (randomCalls d))))))).
    intros. repeat split; try reflexivity; simpl; lra.
  - generalize (uniform (randomCalls d)),
               (uniform (S (S (S (randomCalls d))))),
               (uniform (S (S (S (S (randomCalls d)))))).
    intros. repeat split; try reflexivity; simpl; lra.
  - generalize (uniform (randomCalls d)),
               (uniform (S (S (S (randomCalls d))))),
               (uniform (S (S (S (S (randomCalls d)))))).
    intros. repeat split; try reflexivity; simpl; lra.
Qed.

Lemma hover_step (s : nat) (t : list unit) (d : Doc) :
  mapiM_from f s (tt :: t) rnd d
  = (fst (f tt s rnd d) :: fst (mapiM_from f (S s) t rnd (snd (f tt s rnd d))),
     snd (mapiM_from f (S s) t rnd (snd (f tt s rnd d)))).
Proof.
  cbn [mapiM_from]. unfold bind at 1.
  destruct (f tt s rnd d) as [y d1]. unfold bind at 1. cbn [fst snd].
  destruct (mapiM_from f (S s) t rnd d1) as [ys d2]. reflexivity.
Qed.

Lemma hover_frame (l : list unit) :
  forall s d v,
    (indexOf v < s)%nat ->
    rootStyle (snd (mapiM_from f s l rnd d)) v = rootStyle d v.
Proof.
  induction l as [|[] t IH]; intros s d v Hv.
  - reflexivity.
  - rewrite hover_step. cbn [snd].
    rewrite IH by lia. apply hoverParticle_frame. lia.
Qed.

Lemma hover_calls (l : list unit) :
  forall s d,
    randomCalls (snd (mapiM_from f s l rnd d))
    = (drawsPer realityId * length l + randomCalls d)%nat.
Proof.
  induction l as [|[] t IH]; intros s d.
  - cbn. lia.
  - rewrite hover_step. cbn [snd length].
    rewrite IH, hoverParticle_calls. lia.
Qed.

Lemma hover_length (l : list unit) :
  forall s d, length (fst (mapiM_from f s l rnd d)) = length l.
Proof.
  induction l as [|[] t IH]; intros s d.
  - reflexivity.
  - rewrite hover_step. cbn [fst length]. now rewrite IH.
Qed.

Lemma hover_Forall (P : nat -> HoverStyle -> Prop) (l : list unit) :
  (forall i d, P i (fst (f tt i rnd d))) ->
  forall s d k q,
    nth_error (fst (mapiM_from f s l rnd d)) k = Some q -> P (s + k)%nat q.
Proof.
  intros HP. induction l as [|[] t IH]; intros s d k q Hq.
  - destruct k; discriminate.
  - rewrite hover_step in Hq. cbn [fst] in Hq. destruct k as [|k].
    + injection Hq as <-. rewrite Nat.add_0_r. apply HP.
    + cbn [nth_error] in Hq. apply IH in Hq.
      now rewrite Nat.add_succ_r.
Qed.

Lemma hover_resolved (l : list unit) :
  forall s d k q,
    nth_error (fst (mapiM_from f s l rnd d)) k = Some q ->
    exists x y,
      resolved (snd (mapiM_from f s l rnd d)) q = (Some x, Some y) /\
      inProfile realityId x y.
Proof.
  induction l as [|[] t IH]; intros s d k q Hq.
  - destruct k; discriminate.
  - rewrite hover_step in Hq |- *. cbn [fst snd] in Hq |- *.
    destruct k as [|k].
    + injection Hq as <-.
      destruct (hoverParticle_resolved s d) as (x & y & Hr & Hp).
      destruct (hoverParticle_refs s d) as [Hx Hy].
      exists x, y. split; [|exact Hp].
      unfold resolved in *. rewrite !hover_frame by lia. exact Hr.
    + cbn [nth_error] in Hq. eapply IH. exact Hq.
Qed.

End HoverFacts.

Section HoverTheorems.

Import HoverParticles HoverProfile.
Local Open Scope R_scope.

(** X13: with draws in [0, 1), a render of the hover particles gives
    sixty square particles (one size for width and height) keyed by their
    index, of opacity 0, with the size, the animation and the duration of
    the reality's profile (dragon: 2 to 5 pixels, spark-rise for 4 to 7 s;
    cosmic: 1 to 3 pixels, atmosphere-leak for 8 to 12 s; any other: 2 to
    6 pixels, magical-flow for 2 to 4 s), a glow of three times the size
    and a delay below one second. *)
Theorem hover_particles_follow_profile :
  forall (rnd : nat -> R) (realityId color : string),
    (forall n, 0 <= rnd n < 1) ->
    length (fst (render rnd realityId color)) = 60%nat /\
    forall i q,
      nth_error (fst (render rnd realityId color)) i = Some q ->
      key q = i /\
      width q = height q /\
      fst (sizeRange realityId) <= width q <= snd (sizeRange realityId) /\
      boxShadowBlur q = width q * 3 /\
      animation q = animationOf realityId /\
      fst (durationRange realityId) <= animationDuration q
        <= snd (durationRange realityId) /\
      0 <= animationDelay q < 1 /\
      opacity q = 0.
Proof.
  intros rnd realityId color Hu. unfold render, PortalHoverParticles, mapiM.
  split.
  - rewrite hover_length. apply repeat_length.
  - intros i q Hq.
    apply (hover_Forall rnd realityId color
             (fun i q => key q = i /\
                width q = height q /\
                fst (sizeRange realityId) <= width q <= snd (sizeRange realityId) /\
                boxShadowBlur q = width q * 3 /\
                animation q = animationOf realityId /\
                fst (durationRange realityId) <= animationDuration q
                  <= snd (durationRange realityId) /\
                0 <= animationDelay q < 1 /\
                opacity q = 0)
             particles
             (fun i d => hoverParticle_ranges rnd realityId color Hu i d)
             0%nat blank i q Hq).
Qed.

Lemma halves_uniform : forall n, 0 <= halves n < 1.
Proof. intros n. unfold halves. lra. Qed.

Lemma hover_particles_follow_profile_witness :
  length (fst (render halves "neon" "#FF00FF")) = 60%nat.
Proof.
  exact (proj1 (hover_particles_follow_profile halves "neon" "#FF00FF"
                  halves_uniform)).
Defined.

(** X14: after a render, the [--tx] and [--ty] of every particle refer
    to custom properties that are set on the root element, and their
    values lie where the profile puts them: for the dragon in the column
    -20 <= x <= 20, -140 <= y <= -60 (upwards), for the cosmic reality in
    the square of side 150 around the centre, for any other within 150 of
    the centre in both directions. *)
Theorem hover_references_resolve_in_profile :
  forall (rnd : nat -> R) (realityId color : string) (i : nat) (q : HoverStyle),
    (forall n, 0 <= rnd n < 1) ->
    nth_error (fst (render rnd realityId color)) i = Some q ->
    exists x y : R,
      resolved (snd (render rnd realityId color)) q = (Some x, Some y) /\
      inProfile realityId x y.
Proof.
  intros rnd realityId color i q Hu Hq.
  unfold render, PortalHoverParticles, mapiM in *.
  eapply hover_resolved; eassumption.
Qed.

Lemma hover_first_particle_halves :
  nth_error (fst (render halves "dragon" "#FFD700")) 0
  = Some (fst (hoverParticle "dragon" "#FFD700" tt 0 halves blank)).
Proof.
  unfold render, PortalHoverParticles, mapiM, particles.
  cbn [repeat]. rewrite hover_step. reflexivity.
Qed.

Lemma hover_references_resolve_in_profile_witness :
  exists x y : R,
    resolved (snd (render halves "dragon" "#FFD700"))
             (fst (hoverParticle "dragon" "#FFD700" tt 0 halves blank))
    = (Some x, Some y) /\
    inProfile "dragon" x y.
Proof.
  exact (hover_references_resolve_in_profile halves "dragon" "#FFD700" 0 _
           halves_uniform hover_first_particle_halves).
Defined.

(** X15: a render reads six values of [Math.random()] per particle for
    the dragon (the sixth decides whether the spark is gold) and five for
    any other reality, 360 or 300 in all, and it leaves every custom
    property of an index from 60 on as it was. *)
Theorem hover_render_draws_and_frame :
  forall (rnd : nat -> R) (realityId color : string) (d : Doc) (v : CssVar),
    randomCalls (snd (PortalHoverParticles realityId color true rnd d))
    = ((if isDragon realityId then 360 else 300) + randomCalls d)%nat /\
    ((60 <= indexOf v)%nat ->
     rootStyle (snd (PortalHoverParticles realityId color true rnd d)) v
     = rootStyle d v).
Proof.
  intros rnd realityId color d v. unfold PortalHoverParticles, mapiM. split.
  - rewrite hover_calls. unfold particles, drawsPer. rewrite repeat_length.
    destruct (isDragon realityId); reflexivity.
  - intros Hv. clear - Hv.
    assert (G : forall l s d,
               (s + length l <= indexOf v)%nat ->
               rootStyle (snd (mapiM_from (hoverParticle realityId color) s l rnd d)) v
               = rootStyle d v).
    { induction l as [|[] t IH]; intros s d0 Hs.
      - reflexivity.
      - rewrite hover_step. cbn [snd]. cbn [length] in Hs.
        rewrite IH by lia. apply hoverParticle_frame. lia. }
    apply G. unfold particles. rewrite repeat_length. exact Hv.
Qed.

Lemma hover_render_draws_and_frame_witness :
  rootStyle (snd (PortalHoverParticles "dragon" "#FFD700" true halves blank))
            (leak_tx 60)
  = None.
Proof.
  refine (proj2 (hover_render_draws_and_frame halves "dragon" "#FFD700" blank
                   (leak_tx 60)) _).
  simpl. lia.
Defined.

End HoverTheorems.

(** ** The portal card's tilt *)

Section CardTiltFacts.

Import CardTilt.
Local Open Scope R_scope.

(** X16: while the pointer is over the card, the card is hovered (scaled
    by 1.05) and tilted by at most a fortieth of its width about the
    vertical axis and a fortieth of its height about the horizontal one,
    not at all under the centre; leaving or lifting the finger puts it
    back flat at scale 1; a touch move without touch points changes
    nothing. *)
Theorem tilt_bounded_over_card :
  forall (clientX clientY : R) (card : DOMRect) (c : Card),
    inside clientX clientY card ->
    let c' := handleMouseMove clientX clientY card c in
    isHovered c' = true /\
    scale c' = 1.05 /\
    - (width card / 40) <= rotateY c' <= width card / 40 /\
    - (height card / 40) <= rotateX c' <= height card / 40 /\
    (clientX = left card + width card / 2 -> rotateY c' = 0) /\
    (clientY = top card + height card / 2 -> rotateX c' = 0) /\
    handleTouchMove [(clientX, clientY)] card c = c' /\
    handleTouchMove [] card c = c /\
    rotateX (handleReset c') = 0 /\
    rotateY (handleReset c') = 0 /\
    scale (handleReset c') = 1.
Proof.
  intros clientX clientY card c [[Hx1 Hx2] [Hy1 Hy2]].
  unfold handleMouseMove, updateTilt, handleReset, rotateX, rotateY, scale.
  cbn [isHovered tilt x y handleTouchMove].
  repeat split; try reflexivity; lra.
Qed.

Lemma tilt_bounded_over_card_witness :
  inside 380 100 cardRect /\
  rotateY (handleMouseMove 380 100 cardRect initial) <= 360 / 40.
Proof.
  assert (H : inside 380 100 cardRect)
    by (unfold inside, cardRect; simpl; lra).
  split; [exact H|].
  destruct (tilt_bounded_over_card 380 100 cardRect initial H)
    as (_ & _ & [_ Hy] & _).
  exact Hy.
Defined.

End CardTiltFacts.

(** ** The immersive player *)

Section ImmersiveFacts.

Import Immersive.

(** X17: with the pointer inside a window of positive width, the stereo
    position handed to [setSpatialPosition] lies in [-1, 1]: -1 at the
    left edge, 0 in the middle, 1 at the right edge, and further right
    never gives a smaller value. *)
Theorem spatial_position_normalised :
  forall innerWidth a b : R,
    (0 < innerWidth)%R ->
    (0 <= a <= b)%R ->
    (b <= innerWidth)%R ->
    (-1 <= handleInteraction innerWidth a <= handleInteraction innerWidth b)%R /\
    (handleInteraction innerWidth b <= 1)%R /\
    handleInteraction innerWidth 0 = (-1)%R /\
    handleInteraction innerWidth (innerWidth / 2) = 0%R /\
    handleInteraction innerWidth innerWidth = 1%R.
Proof.
  intros w a b Hw [Ha Hab] Hb. unfold handleInteraction.
  assert (Hi : (0 < / w)%R) by now apply Rinv_0_lt_compat.
  assert (Hww : (w * / w = 1)%R) by (apply Rinv_r; lra).
  unfold Rdiv.
  assert (H1 : (0 <= a * / w)%R) by nra.
  assert (H2 : (a * / w <= b * / w)%R) by nra.
  assert (H3 : (b * / w <= 1)%R) by nra.
  assert (H4 : (w * / 2 * / w = / 2)%R)
    by (replace (w * / 2 * / w)%R with (w * / w * / 2)%R by ring; lra).
  repeat split; lra.
Qed.

Lemma spatial_position_normalised_witness :
  (handleInteraction 1000 250 <= handleInteraction 1000 750)%R.
Proof.
  assert (Hw : (0 < 1000)%R) by lra.
  assert (Hab : (0 <= 250 <= 750)%R) by lra.
  assert (Hb : (750 <= 1000)%R) by lra.
  exact (proj2 (proj1 (spatial_position_normalised 1000 250 750 Hw Hab Hb))).
Defined.

Local Open Scope float_scope.

Lemma exitProgress_advance (p : Player) :
  exitProgress (advance p)
  = (let next := exitProgress p + 2 in if 100 <=? next then 100 else next).
Proof.
  unfold advance. cbv zeta.
  destruct (100 <=? exitProgress p + 2); reflexivity.
Qed.

Lemma run_app (p : Player) (es fs : list Event) :
  run p (es ++ fs) = run (run p es) fs.
Proof. unfold run. apply fold_left_app. Qed.

Lemma progressOf_saturated (n : nat) : (50 <= n)%nat -> progressOf n = 100.
Proof.
  induction 1 as [|m Hm IH].
  - vm_compute. reflexivity.
  - change (progressOf (S m))
      with (let next := progressOf m + 2 in if 100 <=? next then 100 else next).
    rewrite IH. vm_compute. reflexivity.
Qed.

Lemma progressOf_first_51 :
  forallb (fun n => (0 <=? progressOf n) && (progressOf n <=? 100)
                    && (0 <=? progressOf n / 100) && (progressOf n / 100 <=? 1)
                    && (progressOf n =? PrimFloat.of_uint63 (Uint63.of_Z (2 * Z.of_nat n))))
          (seq 0 51) = true.
Proof. vm_compute. reflexivity. Qed.

Lemma progress_reachable (fullscreen : bool) (es : list Event) :
  exists n, exitProgress (run (mounted fullscreen) es) = progressOf n.
Proof.
  induction es as [|e es IH] using rev_ind.
  - exists 0%nat. reflexivity.
  - rewrite run_app. destruct IH as [n IH].
    set (p := run (mounted fullscreen) es) in *.
    destruct e as [| |t]; cbn [run fold_left step].
    + now exists n.
    + now exists 0%nat.
    + destruct (existsb (Nat.eqb t) (intervals p)); [|now exists n].
      exists (S n). rewrite exitProgress_advance, IH. reflexivity.
Qed.

(** X18: whatever is pressed, released or fired, in whatever order, the
    exit progress stays between 0 and 100, so the overlay's opacity and
    the ring's scale [exitProgress / 100] stay between 0 and 1. *)
Theorem exit_progress_within_0_and_100 :
  forall (fullscreen : bool) (es : list Event),
    let p := run (mounted fullscreen) es in
    (0 <=? exitProgress p) = true /\
    (exitProgress p <=? 100) = true /\
    (0 <=? exitProgress p / 100) = true /\
    (exitProgress p / 100 <=? 1) = true.
Proof.
  intros fullscreen es p.
  destruct (progress_reachable fullscreen es) as [n Hn]. fold p in Hn.
  rewrite Hn. clear Hn p.
  destruct (Nat.lt_ge_cases n 51) as [H|H].
  - generalize progressOf_first_51. rewrite forallb_forall. intros T.
    specialize (T n). rewrite in_seq in T.
    assert (Hn : (0 <= n < 0 + 51)%nat) by lia.
    apply T in Hn.
    repeat (apply andb_true_iff in Hn as [Hn ?]).
    repeat split; assumption.
  - rewrite progressOf_saturated by lia. repeat split; vm_compute; reflexivity.
Qed.

Lemma held_succ (fullscreen : bool) (n : nat) :
  held fullscreen (S n) = step (held fullscreen n) (fire 1).
Proof.
  unfold held.
  change (startExit :: repeat (fire 1) (S n))
    with (startExit :: (fire 1 :: repeat (fire 1) n)).
  rewrite repeat_cons, app_comm_cons, run_app. reflexivity.
Qed.

Lemma held_done (fullscreen : bool) (n : nat) :
  (50 <= n)%nat -> held fullscreen n = held fullscreen 50.
Proof.
  induction 1 as [|m Hm IH].
  - reflexivity.
  - rewrite held_succ, IH. destruct fullscreen; vm_compute; reflexivity.
Qed.

Ltac first_fifty n tac :=
  do 50 (destruct n as [|n]; [tac|]).

(** X19: one press from rest: while it has been held for fewer than 50
    firings of the 20 ms interval (one second), the progress is twice the
    number of firings and [onExit] has not been called; the 50th firing
    brings the progress to 100, calls [onExit] once, leaves full screen if
    the document can, and stops the interval, so holding on longer changes
    nothing and [onExit] is never called twice; every intensity passed to
    [modulateEnvironment] on the way is in [0, 1] and maps to a cutoff in
    [100, 2000] Hz and a volume in [0.005, 0.05]. *)
Theorem hold_for_fifty_ticks_to_exit :
  forall (fullscreen : bool) (n : nat),
    ((n < 50)%nat ->
       exitProgress (held fullscreen n)
       = PrimFloat.of_uint63 (Uint63.of_Z (2 * Z.of_nat n)) /\
       exits (held fullscreen n) = 0%nat /\
       intervals (held fullscreen n) = [1%nat]) /\
    ((50 <= n)%nat ->
       held fullscreen n = held fullscreen 50 /\
       exitProgress (held fullscreen n) = 100 /\
       exits (held fullscreen n) = 1%nat /\
       intervals (held fullscreen n) = [] /\
       leftFullscreen (held fullscreen n) = fullscreen) /\
    forallb audible (effects (held fullscreen n)) = true.
Proof.
  intros fullscreen n.
  assert (Hdone : (50 <= n)%nat ->
            held fullscreen n = held fullscreen 50 /\
            exitProgress (held fullscreen n) = 100 /\
            exits (held fullscreen n) = 1%nat /\
            intervals (held fullscreen n) = [] /\
            leftFullscreen (held fullscreen n) = fullscreen).
  { intros H. rewrite (held_done fullscreen n H).
    split; [reflexivity|].
    destruct fullscreen; vm_compute; repeat split; reflexivity. }
  split; [|split; [exact Hdone|]].
  - intros H.
    first_fifty n ltac:(destruct fullscreen; vm_compute; repeat split; reflexivity).
    lia.
  - destruct (Nat.lt_ge_cases n 50) as [H|H].
    + first_fifty n ltac:(destruct fullscreen; vm_compute; reflexivity).
      lia.
    + rewrite (held_done fullscreen n H).
      destruct fullscreen; vm_compute; reflexivity.
Qed.

Lemma hold_for_fifty_ticks_to_exit_witness :
  exits (held true 49) = 0%nat /\ exits (held true 50) = 1%nat.
Proof.
  split.
  - refine (proj1 (proj2 (proj1 (hold_for_fifty_ticks_to_exit true 49) _))).
    lia.
  - refine (proj1 (proj2 (proj2
             (proj1 (proj2 (hold_for_fifty_ticks_to_exit true 50)) _)))).
    lia.
Defined.

Lemma quiet_ignores_fire (p : Player) (ts : list nat) :
  intervals p = [] -> run p (map fire ts) = p.
Proof.
  intros H. induction ts as [|t ts IH]; [reflexivity|].
  cbn [map run fold_left step]. rewrite H. cbn [existsb]. exact IH.
Qed.

(** X20: releasing a single press, however long it was held, puts the
    progress back to 0, stops the interval and restores the sound
    ([modulateEnvironment(1)] is the last effect); after that, timers that
    come due change nothing. *)
Theorem release_resets_single_press :
  forall (fullscreen : bool) (n : nat) (ts : list nat),
    let p := run (held fullscreen n) [cancelExit] in
    exitProgress p = 0 /\
    intervals p = [] /\
    last (effects p) onExit = modulateEnvironment 1 /\
    run p (map fire ts) = p.
Proof.
  intros fullscreen n ts p.
  assert (Hi : intervals p = []).
  { unfold p. destruct (Nat.lt_ge_cases n 50) as [H|H].
    - first_fifty n ltac:(destruct fullscreen; vm_compute; reflexivity). lia.
    - rewrite (held_done fullscreen n H).
      destruct fullscreen; vm_compute; reflexivity. }
  split; [reflexivity|]. split; [exact Hi|]. split.
  - unfold p. cbn [run fold_left step effects]. apply last_last.
  - now apply quiet_ignores_fire.
Qed.

(** X21: a second press before the release is not undone by releasing:
    [cancelExit] only clears the interval of the last press, so after two
    presses and any number of releases the first interval still runs, and
    fifty of its firings after one release bring the progress to 100 and
    call [onExit]. *)
Theorem second_press_leaks_an_interval :
  forall (fullscreen : bool) (k : nat),
    let p := run (mounted fullscreen) ([startExit; startExit] ++ repeat cancelExit (S k)) in
    intervals p = [1%nat] /\
    exitProgress p = 0 /\
    let q := run (mounted fullscreen)
               ([startExit; startExit; cancelExit] ++ repeat (fire 1) 50) in
    exitProgress q = 100 /\ exits q = 1%nat.
Proof.
  intros fullscreen k. cbv zeta.
  split; [|split].
  - induction k as [|k IH].
    + reflexivity.
    + change (repeat cancelExit (S (S k)))
        with (cancelExit :: repeat cancelExit (S k)).
      rewrite repeat_cons, app_assoc, run_app.
      cbn [run fold_left step intervals]. rewrite IH.
      assert (Hp : pressTimer (run (mounted fullscreen)
                     ([startExit; startExit] ++ repeat cancelExit (S k))) = Some 2%nat).
      { clear IH. induction k as [|k IHk]; [reflexivity|].
        change (repeat cancelExit (S (S k)))
          with (cancelExit :: repeat cancelExit (S k)).
        rewrite repeat_cons, app_assoc, run_app. exact IHk. }
      unfold run in Hp |- *. rewrite Hp. reflexivity.
  - change (repeat cancelExit (S k)) with (cancelExit :: repeat cancelExit k).
    rewrite repeat_cons, app_assoc, run_app. reflexivity.
  - destruct fullscreen; vm_compute; split; reflexivity.
Qed.

End ImmersiveFacts.

(** ** The portal screen *)

Section PortalFacts.

Import Portal.

(** What a click on one of the vault items does, by cases. *)
Lemma onClick_vaultItems (v : VaultItem) :
  In v vaultItems ->
  (isLocked v = true /\ onClick v = [playThud]) \/
  (isLocked v = false /\
   In (Js.replaceDupSuffix (id (item v))) baseRealityIds /\
   onClick v = [playMemoryUnlock;
                onSelectReality (Js.replaceDupSuffix (id (item v)))]).
Proof.
  intros Hv.
  assert (Hid : In (id (item v)) (map (fun v => id (item v)) vaultItems))
    by (apply in_map_iff; exists v; split; [reflexivity | exact Hv]).
  rewrite vaultItems_ids in Hid.
  rewrite onClick_clickOnId. unfold isLocked.
  generalize dependent (id (item v)). intros s Hs. clear v Hv.
  simpl in Hs.
  repeat (destruct Hs as [<-|Hs];
          [first [ left; split; reflexivity
                 | right; split; [reflexivity|]; split; [|reflexivity];
                   vm_compute; tauto ] |]).
  contradiction.
Qed.

Lemma findReality_some (rid : string) (r : RealityItem) :
  findReality rid = Some r ->
  In r realities /\ id r = rid /\ In rid baseRealityIds.
Proof.
  unfold findReality. intros H. apply find_some in H as [Hin Heq].
  apply String.eqb_eq in Heq. subst rid.
  split; [exact Hin|]. split; [reflexivity|].
  rewrite <- realities_ids. now apply in_map.
Qed.

Lemma findReality_base (rid : string) :
  In rid baseRealityIds ->
  exists r, findReality rid = Some r /\ id r = rid /\ In r realities.
Proof.
  intros H. simpl in H.
  repeat (destruct H as [<-|H];
          [eexists; split; [reflexivity|]; split; [reflexivity|];
           simpl; tauto |]).
  contradiction.
Qed.

Lemma valid_handleSwitchMode (index : nat) (s : Screen) :
  In index systemModeIndices -> valid s -> valid (handleSwitchMode index s).
Proof.
  intros Hi (H1 & H2 & H3). unfold handleSwitchMode.
  destruct (index =? activeDimension s)%nat; [now repeat split|].
  repeat split; cbn; try assumption.
  apply Forall_app. split; [exact H3 | now constructor].
Qed.

Lemma valid_hear (l : list Nervous.Call) (s : Screen) : valid s -> valid (hear l s).
Proof. intros H. exact H. Qed.

Lemma valid_fire (k : nat) (s : Screen) : valid s -> valid (fire k s).
Proof.
  intros (H1 & H2 & H3). unfold fire.
  destruct (nth_error (timeouts s) k) as [t|] eqn:E; [|now repeat split].
  assert (Ht : sound t).
  { rewrite Forall_forall in H3. apply H3. eapply nth_error_In; eassumption. }
  assert (Hrest : Forall sound (firstn k (timeouts s) ++ skipn (S k) (timeouts s))).
  { apply Forall_app. split.
    - rewrite Forall_forall in *. intros x Hx. apply H3.
      rewrite <- (firstn_skipn k (timeouts s)). apply in_or_app. now left.
    - rewrite Forall_forall in *. intros x Hx. apply H3.
      rewrite <- (firstn_skipn (S k) (timeouts s)). apply in_or_app. now right. }
  destruct t; repeat split; cbn; assumption.
Qed.

Lemma valid_step (s : Screen) (e : Event) :
  possible e -> valid s -> valid (step s e).
Proof.
  intros He Hs. destruct e as [index| |v|k| | |h p]; cbn [step possible] in *.
  - unfold hudClick.
    destruct ((activeDimension s =? 1)%nat && (index =? 1)%nat).
    + unfold handleCapture. cbn [isScanning hear].
      destruct (isScanning s); [exact Hs|].
      destruct Hs as (H1 & H2 & H3). repeat split; cbn; try assumption.
      apply Forall_app. split; [exact H3 | now constructor].
    + apply valid_handleSwitchMode; [exact He | exact Hs].
  - unfold cardClick, handleWarp.
    destruct Hs as (H1 & H2 & H3).
    destruct (warpPhase s); repeat split; cbn; try assumption.
    apply Forall_app. split; [exact H3 | now constructor].
  - unfold vaultClick.
    destruct (onClick_vaultItems v He) as [[_ ->] | (_ & Ha & ->)];
      cbn [fold_left perform].
    + exact Hs.
    + unfold handleSelectReality. apply valid_handleSwitchMode.
      * simpl. tauto.
      * destruct Hs as (H1 & H2 & H3). repeat split; cbn; assumption.
  - now apply valid_fire.
  - exact Hs.
  - exact Hs.
  - unfold deepLink. destruct h; [|exact Hs].
    destruct p as [rid|]; [|exact Hs].
    destruct (String.eqb rid EmptyString); [exact Hs|].
    destruct (findReality rid) as [m|] eqn:E; [|exact Hs].
    apply findReality_some in E as (_ & <- & Hb).
    destruct Hs as (H1 & H2 & H3). repeat split; cbn; try assumption.
    apply Forall_app. split; [exact H3 | now constructor].
Qed.

Lemma valid_run (es : list Event) :
  forall s, Forall possible es -> valid s -> valid (run s es).
Proof.
  induction es as [|e es IH]; intros s Hes Hs; [exact Hs|].
  inversion Hes; subst. cbn [run fold_left]. apply IH; [assumption|].
  now apply valid_step.
Qed.

(** X22: whatever the user clicks (the three HUD buttons, the card, the
    items of the vault), whichever pending callbacks run, whatever id a
    deep link carries: the selected reality id is always one of the four
    realities' ids, so the lookup of the current reality finds the reality
    with that id and never falls back on the first one by default; and the
    active dimension is always 0, 1 or 2. *)
Theorem selected_reality_and_dimension_stay_valid :
  forall es : list Event,
    Forall possible es ->
    let s := run initial es in
    In (selectedRealityId s) baseRealityIds /\
    findReality (selectedRealityId s) = Some (currentReality s) /\
    id (currentReality s) = selectedRealityId s /\
    In (currentReality s) realities /\
    In (activeDimension s) systemModeIndices.
Proof.
  intros es Hes s.
  assert (Hv : valid s).
  { apply valid_run; [exact Hes|]. repeat split; simpl; auto. }
  destruct Hv as (H1 & H2 & _).
  destruct (findReality_base _ H1) as (r & Hr & Hid & Hin).
  unfold currentReality. rewrite Hr. repeat split; assumption.
Qed.

Lemma selected_reality_and_dimension_stay_valid_witness :
  id (currentReality
        (run initial [onHudClick 2; onTimeout 0; onVaultClick (place neon 2)]))
  = "neon"%string.
Proof.
  assert (H : Forall possible
                [onHudClick 2; onTimeout 0; onVaultClick (place neon 2)]).
  { constructor; [simpl; tauto|]. constructor; [exact I|].
    constructor; [|constructor].
    unfold possible, vaultItems, layoutHelix, Js.mapi. simpl.
    do 2 right. left. reflexivity. }
  destruct (selected_reality_and_dimension_stay_valid _ H) as (_ & _ & Hid & _).
  rewrite Hid. reflexivity.
Defined.

Lemma filter_drop_nth {T : Type} (p : T -> bool) (l : list T) :
  forall k t,
    nth_error l k = Some t ->
    length (filter p l)
    = ((if p t then 1 else 0) + length (filter p (firstn k l ++ skipn (S k) l)))%nat.
Proof.
  induction l as [|x l IH]; intros k t Hk.
  - destruct k; discriminate.
  - destruct k as [|k].
    + injection Hk as ->. cbn. destruct (p t); reflexivity.
    + cbn [nth_error] in Hk. specialize (IH k t Hk).
      change (skipn (S (S k)) (x :: l)) with (skipn (S k) l).
      change (firstn (S k) (x :: l)) with (x :: firstn k l).
      cbn [app filter]. destruct (p x); cbn [length]; lia.
Qed.

Lemma captureBalanced_setTimeout (t : Timeout) (s : Screen) :
  isCaptureDone t = false ->
  capturesPending (setTimeout t s) = capturesPending s.
Proof.
  intros Ht. unfold capturesPending. cbn [timeouts setTimeout].
  rewrite filter_app, length_app. cbn. rewrite Ht. cbn. lia.
Qed.

Lemma captureBalanced_handleSwitchMode (index : nat) (s : Screen) :
  captureBalanced s -> captureBalanced (handleSwitchMode index s).
Proof.
  unfold handleSwitchMode, captureBalanced.
  destruct (index =? activeDimension s)%nat; [tauto|].
  rewrite captureBalanced_setTimeout by reflexivity. tauto.
Qed.

Lemma captureBalanced_step (s : Screen) (e : Event) :
  captureBalanced s -> captureBalanced (step s e).
Proof.
  intros Hs. destruct e as [index| |v|k| | |h p]; cbn [step].
  - unfold hudClick.
    destruct ((activeDimension s =? 1)%nat && (index =? 1)%nat).
    + unfold handleCapture. cbn [isScanning hear].
      destruct (isScanning s) eqn:E; [exact Hs|].
      unfold captureBalanced, capturesPending in *. rewrite E in Hs.
      cbn. rewrite filter_app, length_app, Hs. reflexivity.
    + now apply captureBalanced_handleSwitchMode.
  - unfold cardClick, handleWarp.
    destruct (warpPhase s); try exact Hs.
    unfold captureBalanced.
    change (capturesPending
              (hear [Nervous.playThud; Nervous.triggerHaptic Nervous.heavy]
                 (setTimeout warpDone
                    (setWarpPhase accelerating
                       (hear [Nervous.playClick; Nervous.triggerHaptic Nervous.heavy] s)))))
      with (capturesPending (setTimeout warpDone s)).
    rewrite captureBalanced_setTimeout by reflexivity. exact Hs.
  - unfold vaultClick.
    destruct (isLocked v) eqn:L; unfold onClick; rewrite L; cbn [fold_left perform].
    + exact Hs.
    + unfold handleSelectReality. now apply captureBalanced_handleSwitchMode.
  - unfold fire.
    destruct (nth_error (timeouts s) k) as [t|] eqn:E; [|exact Hs].
    unfold captureBalanced, capturesPending in *.
    rewrite (filter_drop_nth isCaptureDone _ k t E) in Hs.
    destruct t; cbn in *; try exact Hs.
    destruct (isScanning s); [lia | discriminate].
  - exact Hs.
  - exact Hs.
  - unfold deepLink. destruct h; [|exact Hs].
    destruct p as [rid|]; [|exact Hs].
    destruct (String.eqb rid EmptyString); [exact Hs|].
    destruct (findReality rid) as [m|]; [|exact Hs].
    unfold captureBalanced.
    change (capturesPending
              (setTimeout (deepLinkDone (id m))
                 (hear [Nervous.playThud] (setIsProcessingFile true s))))
      with (capturesPending (setTimeout (deepLinkDone (id m)) s)).
    rewrite captureBalanced_setTimeout by reflexivity. exact Hs.
Qed.

(** X23: captures never stack: whatever happens, exactly one capture
    callback is pending while the scanner is scanning and none while it is
    not; a press of the scanner button during a scan marks the button as
    clicked, queues the 300 ms reset of that mark, clicks and vibrates,
    and starts no second scan: no state variable and no pending callback
    of the screen changes. *)
Theorem captures_never_stack :
  forall (es : list Event) (h : Hud.State),
    let s := run initial es in
    capturesPending s = (if isScanning s then 1%nat else 0%nat) /\
    (Hud.screen h = s -> isScanning s = true -> activeDimension s = 1%nat ->
     let h' := Hud.handleClick 1 h in
     Hud.clickedIndex h' = Some 1%nat /\
     Hud.resetsPending h' = S (Hud.resetsPending h) /\
     Hud.clickedIndex (Hud.resetDue h') = None /\
     shown (Hud.screen h') = shown s /\
     heard (Hud.screen h')
     = heard s ++ [Nervous.playClick; Nervous.triggerHaptic Nervous.heavy] /\
     capturesPending (Hud.screen h') = 1%nat).
Proof.
  intros es h s.
  assert (Hbal : capturesPending s = (if isScanning s then 1%nat else 0%nat)).
  { unfold s. clear s h.
    induction es as [|e es IH] using rev_ind; [reflexivity|].
    unfold run in *. rewrite fold_left_app. cbn [fold_left].
    now apply captureBalanced_step. }
  split; [exact Hbal|].
  intros Hh Hscan Hdim. cbv zeta.
  cbn [Hud.handleClick Hud.clickedIndex Hud.resetsPending Hud.screen Hud.resetDue].
  rewrite Hh.
  assert (E : hudClick 1 s
              = hear [Nervous.playClick; Nervous.triggerHaptic Nervous.heavy] s).
  { unfold hudClick, handleCapture.
    rewrite Hdim. cbn [Nat.eqb andb isScanning hear]. rewrite Hscan. reflexivity. }
  rewrite E. rewrite Hscan in Hbal.
  repeat split; try reflexivity. exact Hbal.
Qed.

Lemma captures_never_stack_witness :
  let s := run initial [onHudClick 1; onTimeout 0; onHudClick 1] in
  isScanning s = true /\
  capturesPending (Hud.screen (Hud.handleClick 1 (Hud.around s))) = 1%nat.
Proof.
  cbv zeta. split; [reflexivity|].
  destruct (captures_never_stack [onHudClick 1; onTimeout 0; onHudClick 1]
              (Hud.around (run initial [onHudClick 1; onTimeout 0; onHudClick 1])))
    as [_ H].
  exact (proj2 (proj2 (proj2 (proj2 (proj2 (H eq_refl eq_refl eq_refl)))))).
Defined.

(** X24: in the vault (dimension 2), a click on an item that is not
    locked selects the item's base reality at once, starts the transition
    with a whoosh, and queues the switch to the gateway; when that
    callback runs the gateway (dimension 0) is shown with the chosen
    reality as the current one.  A click on a locked item only plays the
    thud: nothing shown changes. *)
Theorem vault_selection_returns_to_gateway :
  forall (s : Screen) (v : VaultItem),
    In v vaultItems ->
    activeDimension s = 2%nat ->
    (isLocked v = true ->
       shown (vaultClick v s) = shown s /\
       heard (vaultClick v s) = heard s ++ [Nervous.playThud]) /\
    (isLocked v = false ->
       let s1 := vaultClick v s in
       let s2 := fire (length (timeouts s)) s1 in
       selectedRealityId s1 = Js.replaceDupSuffix (id (item v)) /\
       isTransitioning s1 = true /\
       activeDimension s1 = 2%nat /\
       timeouts s1 = timeouts s ++ [switchDone 0] /\
       heard s1 = heard s ++ [Nervous.playMemoryUnlock; Nervous.playWhoosh] /\
       activeDimension s2 = 0%nat /\
       isTransitioning s2 = false /\
       timeouts s2 = timeouts s /\
       id (currentReality s2) = Js.replaceDupSuffix (id (item v)) /\
       In (currentReality s2) realities).
Proof.
  intros s v Hv Hdim.
  destruct (onClick_vaultItems v Hv) as [[L E] | (L & Ha & E)].
  - split; [|rewrite L; discriminate].
    intros _. unfold vaultClick. rewrite E. split; reflexivity.
  - split; [rewrite L; discriminate|].
    intros _. cbv zeta.
    assert (E1 : vaultClick v s
                 = setTimeout (switchDone 0)
                     (hear [Nervous.playWhoosh]
                        (setIsTransitioning true
                           (setSelectedRealityId (Js.replaceDupSuffix (id (item v)))
                              (hear [Nervous.playMemoryUnlock] s))))).
    { unfold vaultClick. rewrite E. cbn [fold_left perform].
      unfold handleSelectReality, handleSwitchMode.
      cbn [activeDimension setSelectedRealityId hear]. rewrite Hdim. reflexivity. }
    rewrite E1.
    split; [reflexivity|]. split; [reflexivity|]. split; [exact Hdim|].
    split; [reflexivity|].
    split; [cbn; now rewrite <- app_assoc|].
    unfold fire. cbn [timeouts setTimeout hear setIsTransitioning setSelectedRealityId].
    rewrite nth_error_app2 by lia. rewrite Nat.sub_diag. cbn [nth_error].
    cbn [callback dropTimeout setIsTransitioning setActiveDimension
         activeDimension isTransitioning timeouts setTimeout hear
         setSelectedRealityId].
    split; [reflexivity|]. split; [reflexivity|].
    split.
    { rewrite firstn_app, firstn_all, Nat.sub_diag. cbn [firstn].
      rewrite skipn_all2 by (rewrite length_app; simpl; lia).
      now rewrite !app_nil_r. }
    destruct (findReality_base _ Ha) as (r & Hr & Hid & Hin).
    unfold currentReality.
    cbn [selectedRealityId setIsTransitioning setActiveDimension setTimeout hear
         setSelectedRealityId dropTimeout].
    rewrite Hr. split; assumption.
Qed.

Lemma vault_selection_returns_to_gateway_witness :
  let s := run initial [onHudClick 2; onTimeout 0] in
  selectedRealityId (vaultClick (place (withId cosmic "cosmic-dup") 5) s)
  = "cosmic"%string.
Proof.
  cbv zeta.
  assert (Hv : In (place (withId cosmic "cosmic-dup") 5) vaultItems).
  { unfold vaultItems, layoutHelix, Js.mapi. simpl. do 5 right. left. reflexivity. }
  destruct (vault_selection_returns_to_gateway
              (run initial [onHudClick 2; onTimeout 0])
              (place (withId cosmic "cosmic-dup") 5) Hv eq_refl)
    as [_ H].
  exact (proj1 (H eq_refl)).
Defined.

End PortalFacts.

(** ** Bursts of mode switches *)

Section SwitchBurst.

Import Portal.

Lemma hudClick_switch (i : nat) (s : Screen) :
  i <> activeDimension s ->
  hudClick i s
  = setTimeout (switchDone i)
      (hear [Nervous.playWhoosh]
         (setIsTransitioning true
            (hear [Nervous.playClick; Nervous.triggerHaptic Nervous.heavy] s))).
Proof.
  intros Hi. unfold hudClick, handleSwitchMode.
  assert (E : (i =? activeDimension s)%nat = false) by now apply Nat.eqb_neq.
  destruct (activeDimension s =? 1)%nat eqn:A.
  - apply Nat.eqb_eq in A. rewrite A in E. rewrite E.
    cbn [andb activeDimension hear]. rewrite A, E. reflexivity.
  - cbn [andb activeDimension hear]. rewrite E. reflexivity.
Qed.

Lemma burst_queues (clicks : list nat) :
  forall s,
    (forall i, In i clicks -> i <> activeDimension s) ->
    timeouts (run s (map onHudClick clicks))
    = timeouts s ++ map switchDone clicks /\
    activeDimension (run s (map onHudClick clicks)) = activeDimension s /\
    (clicks <> [] -> isTransitioning (run s (map onHudClick clicks)) = true).
Proof.
  induction clicks as [|i clicks IH] using rev_ind; intros s H.
  - cbn. rewrite app_nil_r. repeat split. intros C. now contradiction C.
  - rewrite map_app. unfold run in *. rewrite fold_left_app. cbn [map fold_left step].
    destruct (IH s) as (T & A & _).
    { intros j Hj. apply H. apply in_or_app. now left. }
    rewrite hudClick_switch
      by (rewrite A; apply H; apply in_or_app; right; now left).
    cbn [timeouts activeDimension isTransitioning setTimeout hear setIsTransitioning].
    rewrite T, A, map_app, app_assoc. repeat split.
Qed.

Lemma fire_head (t : Timeout) (ts : list Timeout) (s : Screen) :
  timeouts s = t :: ts ->
  fire 0 s = callback t (dropTimeout 0 s) /\
  timeouts (dropTimeout 0 s) = ts.
Proof.
  intros E. unfold fire. rewrite E. cbn [nth_error]. split; [reflexivity|].
  cbn [timeouts dropTimeout]. rewrite E. reflexivity.
Qed.

Lemma drain_switches (ts : list nat) :
  forall s,
    ts <> [] ->
    timeouts s = map switchDone ts ->
    activeDimension (drain s) = last ts 0%nat /\
    isTransitioning (drain s) = false /\
    timeouts (drain s) = [].
Proof.
  induction ts as [|t ts IH]; intros s Hne E; [now contradiction Hne|].
  unfold drain. rewrite E. cbn [map length]. rewrite Nat.iter_succ_r.
  destruct (fire_head (switchDone t) (map switchDone ts) s E) as [F D].
  destruct ts as [|u ts].
  - cbn [map length Nat.iter last]. rewrite F.
    cbn [callback activeDimension isTransitioning timeouts
         setIsTransitioning setActiveDimension].
    repeat split. exact D.
  - assert (E' : timeouts (fire 0 s) = map switchDone (u :: ts)).
    { rewrite F. cbn [callback timeouts setIsTransitioning setActiveDimension].
      exact D. }
    specialize (IH (fire 0 s) ltac:(discriminate) E').
    unfold drain in IH. rewrite E' in IH.
    change (last (t :: u :: ts) 0%nat) with (last (u :: ts) 0%nat).
    exact IH.
Qed.

(** X25: mode switches are not cancelled, they queue up: from a screen
    with nothing pending, pressing HUD buttons of other modes than the one
    shown queues one switch per press and leaves the shown mode as it is;
    when the callbacks have all run, oldest first, the screen shows the
    mode pressed last and is no longer in transition.  With two or more
    presses the transition flag already drops after the first callback,
    while further switches are still pending. *)
Theorem mode_switches_queue_up :
  forall (s : Screen) (clicks : list nat),
    timeouts s = [] ->
    clicks <> [] ->
    (forall i, In i clicks -> i <> activeDimension s) ->
    let s1 := run s (map onHudClick clicks) in
    timeouts s1 = map switchDone clicks /\
    activeDimension s1 = activeDimension s /\
    isTransitioning s1 = true /\
    activeDimension (drain s1) = last clicks 0%nat /\
    isTransitioning (drain s1) = false /\
    timeouts (drain s1) = [] /\
    ((2 <= length clicks)%nat ->
     isTransitioning (fire 0 s1) = false /\ timeouts (fire 0 s1) <> []).
Proof.
  intros s clicks Hq Hne Hi s1.
  destruct (burst_queues clicks s Hi) as (T & A & Tr). fold s1 in T, A, Tr.
  rewrite Hq in T. cbn [app] in T.
  destruct (drain_switches clicks s1 Hne T) as (D1 & D2 & D3).
  repeat split; try assumption.
  - now apply Tr.
  - destruct clicks as [|a [|b rest]]; cbn [length] in H; try lia.
    destruct (fire_head _ _ s1 T) as [F _]. rewrite F. reflexivity.
  - destruct clicks as [|a [|b rest]]; cbn [length] in H; try lia.
    destruct (fire_head _ _ s1 T) as [F D]. rewrite F.
    cbn [callback timeouts setIsTransitioning setActiveDimension].
    rewrite D. discriminate.
Qed.

Lemma mode_switches_queue_up_witness :
  activeDimension (drain (run initial (map onHudClick [1; 2]%nat))) = 2%nat.
Proof.
  refine (proj1 (proj2 (proj2 (proj2
           (mode_switches_queue_up initial [1; 2]%nat eq_refl _ _))))).
  - discriminate.
  - intros i [<-|[<-|[]]]; discriminate.
Defined.

End SwitchBurst.

(** ** The background hum *)

Section VoidHumFacts.

Import VoidHum.

Lemma coherent_step (r : Refs) (e : Event) : coherent r -> coherent (step r e).
Proof.
  intros (Hs & Hg & Hf & Hp & Ha & Hc).
  destruct e as [playing|]; cbn [step].
  - unfold toggleVoidHum. cbn [initAudio humOscillator].
    destruct (humOscillator r) as [osc|] eqn:E; destruct playing;
      cbn [andb negb isSome] in *; unfold coherent;
      cbn [sounding humOscillator humGain humFilter humPanner audioContext
           created initAudio isSome];
      rewrite ?E; cbn [isSome].
    + repeat split; try assumption; try reflexivity.
    + repeat split; try assumption; try reflexivity.
    + rewrite Hs. repeat split; try reflexivity.
      intros o Ho. injection Ho as <-. lia.
    + repeat split; try assumption; try reflexivity.
  - unfold stopDue. destruct (stopsPending r); [now repeat split|].
    unfold coherent.
    cbn [sounding humOscillator humGain humFilter humPanner audioContext
         created isSome].
    repeat split; try discriminate.
    destruct (humOscillator r) as [osc|]; rewrite Hs; [|reflexivity].
    cbn [filter]. rewrite Nat.eqb_refl. reflexivity.
Qed.

Lemma coherent_run (es : list Event) : coherent (run fresh es).
Proof.
  induction es as [|e es IH] using rev_ind.
  - repeat split; cbn; try reflexivity; discriminate.
  - unfold run in *. rewrite fold_left_app. now apply coherent_step.
Qed.

(** X26: however the hum is toggled and whenever its stop callbacks run,
    at most one hum oscillator sounds, and it is the one the ref holds;
    [modulateEnvironment] and [setSpatialPosition] take effect exactly
    while a hum is held; asking for the hum while it is held creates no
    second oscillator, and asking to stop it while none is held sets no
    timer. *)
Theorem at_most_one_hum :
  forall es : list Event,
    let r := run fresh es in
    (length (sounding r) <= 1)%nat /\
    sounding r = match humOscillator r with Some osc => [osc] | None => [] end /\
    modulates r = isSome (humOscillator r) /\
    pans r = isSome (humOscillator r) /\
    (isSome (humOscillator r) = true ->
       sounding (toggleVoidHum true r) = sounding r /\
       created (toggleVoidHum true r) = created r) /\
    (isSome (humOscillator r) = false ->
       stopsPending (toggleVoidHum false r) = stopsPending r /\
       sounding (toggleVoidHum false r) = sounding r).
Proof.
  intros es r.
  destruct (coherent_run es) as (Hs & Hg & Hf & Hp & Ha & _). fold r in Hs, Hg, Hf, Hp, Ha.
  split; [rewrite Hs; destruct (humOscillator r); simpl; lia|].
  split; [exact Hs|].
  unfold modulates, pans. rewrite Hg, Hf, Hp.
  destruct (humOscillator r) as [osc|] eqn:E; cbn [isSome] in *.
  - rewrite (Ha eq_refl). cbn [andb].
    repeat split; try discriminate;
      unfold toggleVoidHum; cbn [initAudio humOscillator]; rewrite E;
      reflexivity.
  - rewrite !andb_false_r.
    repeat split; try discriminate;
      unfold toggleVoidHum; cbn [initAudio humOscillator]; rewrite E;
      reflexivity.
Qed.

Lemma at_most_one_hum_witness :
  sounding (toggleVoidHum true (run fresh [toggle true]))
  = sounding (run fresh [toggle true]).
Proof.
  exact (proj1 (proj1 (proj2 (proj2 (proj2 (proj2
           (at_most_one_hum [toggle true]))))) eq_refl)).
Defined.

(** X27: a stop callback silences whichever hum is held when it runs: it
    stops that oscillator and clears the refs, also when the hum was asked
    for again after the stop was set; so two stops set in a row, a
    restart after the first has run, and the second stop running end in
    silence although the hum was asked for last. *)
Theorem stale_stop_silences_new_hum :
  forall es : list Event,
    let r := run fresh es in
    ((0 < stopsPending r)%nat ->
       sounding (stopDue r) = [] /\
       humOscillator (stopDue r) = None /\
       modulates (stopDue r) = false) /\
    let q := run fresh [toggle true; toggle false; toggle false;
                        stopTimeout; toggle true; stopTimeout] in
    sounding q = [] /\ created q = 8%nat /\ stopsPending q = 0%nat.
Proof.
  intros es r. split.
  - intros Hp.
    destruct (coherent_run es) as (Hs & _). fold r in Hs.
    unfold stopDue, modulates.
    destruct (stopsPending r) as [|n]; [lia|].
    cbn [sounding humOscillator audioContext humFilter humGain isSome].
    rewrite andb_false_r. repeat split.
    destruct (humOscillator r) as [osc|]; rewrite Hs; [|reflexivity].
    cbn [filter]. rewrite Nat.eqb_refl. reflexivity.
  - repeat split; reflexivity.
Qed.

Lemma stale_stop_silences_new_hum_witness :
  sounding (stopDue (run fresh [toggle true; toggle false])) = [].
Proof.
  refine (proj1 (proj1 (stale_stop_silences_new_hum [toggle true; toggle false]) _)).
  simpl. lia.
Defined.

End VoidHumFacts.
